(** * mudaecalc: the odds calculator of [odds.js]

    A shallow embedding of [odds.js] and the properties of its two stages,
    [computeEffectiveStats] (the stats aggregator) and [calculateOdds]
    (the odds calculator).

    Modelling choices.
    - A JavaScript number is an exact rational ([Qc], whose equality is
      Leibniz equality); [NaN] exists only as the result of a failed
      [Number(...)] coercion.  Rounding of IEEE doubles and the infinities
      are not represented in this model; [Double] below has them.
    - A statistics object lives in a heap and is passed by reference, so
      that the in-place updates of [UPGRADE_EFFECTS] and [tutoCheck] and the
      copy made by the object spread are visible in the model.
    - An upgrades object is the list of its own enumerable entries, in the
      order [Object.entries] yields them.  Property lookup in
      [UPGRADE_EFFECTS] is lookup among its five own properties.
    - [calculateFromInputs], the helper for forms, is modelled for inputs
      that are numbers, booleans, [null] or [undefined]; strings are not.
    - Where rounding or the names inherited from [Object.prototype]
      decide a property, the aggregator is modelled again over binary64
      doubles in [Double], with the inherited names looked up as the code
      does. *)

From Stdlib Require Import QArith Qcanon Qround Permutation.
From Stdlib Require Floats.PrimFloat.
From stdpp Require Import base numbers option list gmap strings.

Local Open Scope Qc_scope.

(** ** Numbers and values *)

Notation "# z" := (Qc_of_Z z) (at level 1, format "# z") : Qc_scope.

(** The result of [Number(v)]. *)
Inductive jsnum : Type :=
  | NaN
  | Fin (q : Qc).

(** The values an upgrade level is given as.  A numeric string stands for
    the number it denotes. *)
Inductive jsval : Type :=
  | VUndefined
  | VNull
  | VBool (b : bool)
  | VNum (n : jsnum).

Definition Number (v : jsval) : jsnum :=
  match v with
  | VUndefined => NaN
  | VNull => Fin #0
  | VBool true => Fin #1
  | VBool false => Fin #0
  | VNum n => n
  end.

(** [n || 0]: the falsy numbers are [NaN] and [0], and both give [0]. *)
Definition or_zero (n : jsnum) : Qc :=
  match n with
  | NaN => #0
  | Fin q => q
  end.

Definition Math_max (a b : Qc) : Qc := if decide (a ≤ b) then b else a.
Definition Math_min (a b : Qc) : Qc := if decide (a ≤ b) then a else b.

(** ** The statistics record *)

Definition CARD_TOTAL : Qc := #43848.

Record stats : Type := mkStats {
  rolls : Qc;
  w_slots : Qc;
  sw_slots : Qc;
  w_boost : Qc;
  sw_boost : Qc;
  disabled_cards : Qc;
  cards_left : Qc;
  cards_claimed : Qc;
  kp_limit : Qc;
  kp_usage : Qc;
  kp_bonus : Qc;
  og_server : bool;
  tuto_lvl : Qc;
  persrare : Qc
}.

(** Field assignments [s.f = v]. *)
Definition set_rolls (v : Qc) (s : stats) : stats :=
  mkStats v (w_slots s) (sw_slots s) (w_boost s) (sw_boost s)
    (disabled_cards s) (cards_left s) (cards_claimed s) (kp_limit s)
    (kp_usage s) (kp_bonus s) (og_server s) (tuto_lvl s) (persrare s).

Definition set_w_slots (v : Qc) (s : stats) : stats :=
  mkStats (rolls s) v (sw_slots s) (w_boost s) (sw_boost s)
    (disabled_cards s) (cards_left s) (cards_claimed s) (kp_limit s)
    (kp_usage s) (kp_bonus s) (og_server s) (tuto_lvl s) (persrare s).

Definition set_w_boost (v : Qc) (s : stats) : stats :=
  mkStats (rolls s) (w_slots s) (sw_slots s) v (sw_boost s)
    (disabled_cards s) (cards_left s) (cards_claimed s) (kp_limit s)
    (kp_usage s) (kp_bonus s) (og_server s) (tuto_lvl s) (persrare s).

Definition set_sw_boost (v : Qc) (s : stats) : stats :=
  mkStats (rolls s) (w_slots s) (sw_slots s) (w_boost s) v
    (disabled_cards s) (cards_left s) (cards_claimed s) (kp_limit s)
    (kp_usage s) (kp_bonus s) (og_server s) (tuto_lvl s) (persrare s).

Definition set_kp_usage (v : Qc) (s : stats) : stats :=
  mkStats (rolls s) (w_slots s) (sw_slots s) (w_boost s) (sw_boost s)
    (disabled_cards s) (cards_left s) (cards_claimed s) (kp_limit s)
    v (kp_bonus s) (og_server s) (tuto_lvl s) (persrare s).

Definition set_cards_claimed (v : Qc) (s : stats) : stats :=
  mkStats (rolls s) (w_slots s) (sw_slots s) (w_boost s) (sw_boost s)
    (disabled_cards s) (cards_left s) v (kp_limit s)
    (kp_usage s) (kp_bonus s) (og_server s) (tuto_lvl s) (persrare s).

Definition defaultStats : stats :=
  {| rolls := #10; w_slots := #5; sw_slots := #1; w_boost := #0;
     sw_boost := #0; disabled_cards := #0; cards_left := CARD_TOTAL;
     cards_claimed := #0; kp_limit := #100; kp_usage := #100;
     kp_bonus := #0; og_server := false; tuto_lvl := #0; persrare := #1 |}.

(** ** The heap of statistics objects, and computations over it *)

Definition loc : Type := positive.
Abbreviation heap := (gmap loc stats).

Module Heap.

(** A computation reads and updates the heap; it fails only when it
    follows a reference that points to no object. *)
Definition M (A : Type) : Type := heap → option (A * heap).

Definition ret {A} (a : A) : M A := λ h, Some (a, h).

Definition bind {A B} (k : A → M B) (m : M A) : M B :=
  λ h, match m h with
       | Some (a, h') => k a h'
       | None => None
       end.

#[global] Instance M_ret : MRet M := @ret.
#[global] Instance M_bind : MBind M := @bind.

(** Read the object behind a reference. *)
Definition get (l : loc) : M stats :=
  λ h, match h !! l with
       | Some s => Some (s, h)
       | None => None
       end.

(** Overwrite the object behind a reference. *)
Definition put (l : loc) (s : stats) : M unit :=
  λ h, match h !! l with
       | Some _ => Some (tt, <[l := s]> h)
       | None => None
       end.

(** Allocate a new object. *)
Definition new (s : stats) : M loc :=
  λ h, let l := fresh (dom h) in Some (l, <[l := s]> h).

(** An assignment to a field of the object behind [l]. *)
Definition assign (l : loc) (f : stats → stats) : M unit :=
  s ← get l; put l (f s).

Definition when (b : bool) (m : M unit) : M unit :=
  if b then m else ret tt.

Fixpoint forEach {A} (l : list A) (f : A → M unit) : M unit :=
  match l with
  | [] => ret tt
  | x :: l' => f x;; forEach l' f
  end.

End Heap.

Import Heap.

(** ** [UPGRADE_EFFECTS] *)

Definition effect : Type := loc → Qc → M unit.

Definition Bronze : effect := λ s level,
  assign s (λ r, set_w_slots (w_slots r + level * #1) r).

Definition Silver : effect := λ s level,
  assign s (λ r, set_w_boost (w_boost r + level * #25) r).

Definition Gold : effect := λ s level,
  assign s (λ r, set_kp_usage (kp_usage r - level * #10) r).

Definition Sapphire : effect := λ s level,
  assign s (λ r, set_rolls (rolls r + level * #1) r).

Definition Ruby : effect := λ s level,
  when (bool_decide (#1 ≤ level))
    (assign s (λ r, set_w_slots (w_slots r + #2) r));;
  when (bool_decide (#2 ≤ level))
    (assign s (λ r, set_w_boost (w_boost r + #50) r));;
  when (bool_decide (#3 ≤ level))
    (assign s (λ r, set_kp_usage (kp_usage r - #20) r));;
  when (bool_decide (#4 ≤ level))
    (assign s (λ r, set_rolls (rolls r + #2) r)).

Definition UPGRADE_EFFECTS : gmap string effect :=
  list_to_map
    [("Bronze", Bronze); ("Silver", Silver); ("Gold", Gold);
     ("Sapphire", Sapphire); ("Ruby", Ruby)]%string.

(** ** The stats aggregator *)

Definition cardsAvailable (s : stats) : Qc :=
  cards_left s - disabled_cards s.

Definition tutoCheck (stats : loc) : M unit :=
  s ← get stats;
  if bool_decide (#16 ≤ tuto_lvl s) then
    assign stats (λ r, set_sw_boost (sw_boost r + #100) r)
  else if bool_decide (#10 ≤ tuto_lvl s) then
    assign stats (λ r, set_sw_boost (sw_boost r + #50) r)
  else ret tt.

(** An upgrades object, through [Object.entries]. *)
Definition entries : Type := list (string * jsval).

(** The body of the [forEach] callback. *)
Definition applyEntry (stats : loc) (e : string * jsval) : M unit :=
  let '(name, level) := e in
  let nLevel := or_zero (Number level) in
  if bool_decide (#0 < nLevel) then
    match UPGRADE_EFFECTS !! name with
    | Some f => f stats nLevel
    | None => ret tt
    end
  else ret tt.

(** [upgrades] is [None] when the argument is [undefined] or [null]. *)
Definition computeEffectiveStats (baseStats : loc) (upgrades : option entries)
    : M loc :=
  b ← get baseStats;
  stats ← new b;
  forEach (default [] upgrades) (applyEntry stats);;
  s ← get stats;
  when (og_server s) (assign stats (λ r, set_rolls (rolls r + #3) r));;
  tutoCheck stats;;
  assign stats (λ r, set_cards_claimed (CARD_TOTAL - cards_left r) r);;
  mret stats.

(** ** The odds calculator *)

Record odds : Type := mkOdds {
  specific_roll_odds : Qc;
  specific_wish_odds : Qc;
  wish_odds : Qc;
  star_wish_odds : Qc;
  kspawn_odds : Qc
}.

(** [calculateOdds] only reads its argument: it is a function of the
    contents of the statistics object. *)
Definition calculateOdds (s : stats) : odds :=
  let available := cardsAvailable s in
  if bool_decide (available ≤ #0) then
    mkOdds #0 #0 #0 #0 #0
  else
    let base := #1 / available in
    let wishMult := #1 + w_boost s / #100 in
    let starMult := #1 + (w_boost s + sw_boost s) / #100 in
    let specific_roll_odds := base in
    let specific_wish_odds := base * wishMult in
    let normalSlots := Math_max #0 (w_slots s - sw_slots s) in
    let wish_odds := normalSlots * base * wishMult in
    let star_wish_odds := sw_slots s * base * starMult in
    let kRaw :=
      (cards_claimed s * (#50 / Math_max #1 (persrare s))) / available in
    let kspawn_odds := Math_max #0 (Math_min #1 kRaw) in
    mkOdds specific_roll_odds specific_wish_odds wish_odds star_wish_odds
      kspawn_odds.


(** ** Definitions used to state and prove the properties *)

(** [acts l m f]: run on a heap where [l] holds the record [r], the
    computation [m] succeeds, replaces the contents of [l] by [f r] and
    touches nothing else. *)
Definition acts (l : loc) (m : M unit) (f : stats → stats) : Prop :=
  ∀ (h : heap) r, h !! l = Some r → m h = Some (tt, <[l := f r]> h).

(** The steps of [computeEffectiveStats] after the loop: the [og_server]
    bonus, the tutorial bonus and the recomputation of [cards_claimed]. *)
Definition finish (stats : loc) : M unit :=
  s ← get stats;
  when (og_server s) (assign stats (λ r, set_rolls (rolls r + #3) r));;
  tutoCheck stats;;
  assign stats (λ r, set_cards_claimed (CARD_TOTAL - cards_left r) r).

(** What each step does to the contents of the working copy. *)
Definition rubyRec (level : Qc) (r : stats) : stats :=
  let r1 := if bool_decide (#1 ≤ level)
            then set_w_slots (w_slots r + #2) r else r in
  let r2 := if bool_decide (#2 ≤ level)
            then set_w_boost (w_boost r1 + #50) r1 else r1 in
  let r3 := if bool_decide (#3 ≤ level)
            then set_kp_usage (kp_usage r2 - #20) r2 else r2 in
  if bool_decide (#4 ≤ level) then set_rolls (rolls r3 + #2) r3 else r3.

Definition entryRec (e : string * jsval) (r : stats) : stats :=
  let '(name, level) := e in
  let nLevel := or_zero (Number level) in
  if bool_decide (#0 < nLevel) then
    if decide (name = "Bronze") then
      set_w_slots (w_slots r + nLevel * #1) r
    else if decide (name = "Silver") then
      set_w_boost (w_boost r + nLevel * #25) r
    else if decide (name = "Gold") then
      set_kp_usage (kp_usage r - nLevel * #10) r
    else if decide (name = "Sapphire") then
      set_rolls (rolls r + nLevel * #1) r
    else if decide (name = "Ruby") then rubyRec nLevel r
    else r
  else r.

Definition tutoRec (r : stats) : stats :=
  if bool_decide (#16 ≤ tuto_lvl r) then set_sw_boost (sw_boost r + #100) r
  else if bool_decide (#10 ≤ tuto_lvl r)
       then set_sw_boost (sw_boost r + #50) r
       else r.

Definition ogRec (r : stats) : stats :=
  if og_server r then set_rolls (rolls r + #3) r else r.

Definition claimedRec (r : stats) : stats :=
  set_cards_claimed (CARD_TOTAL - cards_left r) r.

(** The contents of the record [computeEffectiveStats] returns. *)
Definition effective (r : stats) (es : entries) : stats :=
  claimedRec (tutoRec (ogRec (foldl (λ r e, entryRec e r) r es))).

(** Every upgrade only adds to [rolls], [w_slots], [w_boost] and
    [kp_usage]; a [delta] collects the four increments. *)
Record delta : Type := mkDelta {
  d_rolls : Qc;
  d_w_slots : Qc;
  d_w_boost : Qc;
  d_kp_usage : Qc
}.

Definition dzero : delta := mkDelta 0 0 0 0.

Definition dplus (a b : delta) : delta :=
  mkDelta (d_rolls a + d_rolls b) (d_w_slots a + d_w_slots b)
    (d_w_boost a + d_w_boost b) (d_kp_usage a + d_kp_usage b).

Definition addDelta (d : delta) (r : stats) : stats :=
  mkStats (rolls r + d_rolls d) (w_slots r + d_w_slots d) (sw_slots r)
    (w_boost r + d_w_boost d) (sw_boost r) (disabled_cards r) (cards_left r)
    (cards_claimed r) (kp_limit r) (kp_usage r + d_kp_usage d) (kp_bonus r)
    (og_server r) (tuto_lvl r) (persrare r).

Definition rubyDelta (level : Qc) : delta :=
  mkDelta (if bool_decide (#4 ≤ level) then #2 else 0)
    (if bool_decide (#1 ≤ level) then #2 else 0)
    (if bool_decide (#2 ≤ level) then #50 else 0)
    (if bool_decide (#3 ≤ level) then - #20 else 0).

Definition entryDelta (e : string * jsval) : delta :=
  let '(name, level) := e in
  let nLevel := or_zero (Number level) in
  if bool_decide (#0 < nLevel) then
    if decide (name = "Bronze") then mkDelta 0 (nLevel * #1) 0 0
    else if decide (name = "Silver") then mkDelta 0 0 (nLevel * #25) 0
    else if decide (name = "Gold") then mkDelta 0 0 0 (- (nLevel * #10))
    else if decide (name = "Sapphire") then mkDelta (nLevel * #1) 0 0 0
    else if decide (name = "Ruby") then rubyDelta nLevel
    else dzero
  else dzero.

Definition totalDelta (es : entries) : delta :=
  foldr (λ e d, dplus (entryDelta e) d) dzero es.



(** *** Valid statistics records (section 3 of the specification) *)

Definition is_int (q : Qc) : Prop := ∃ z : Z, q = #z.
Definition is_nat (q : Qc) : Prop := is_int q ∧ #0 ≤ q.

Record valid_stats (s : stats) : Prop := mkValid {
  valid_rolls : is_nat (rolls s);
  valid_w_slots : is_nat (w_slots s);
  valid_sw_slots : is_nat (sw_slots s);
  valid_w_boost : is_int (w_boost s);
  valid_sw_boost : is_int (sw_boost s);
  valid_disabled_cards : is_nat (disabled_cards s);
  valid_cards_left : is_nat (cards_left s);
  valid_cards_claimed :
    is_nat (cards_claimed s) ∧ cards_claimed s = CARD_TOTAL - cards_left s;
  valid_kp_limit : is_int (kp_limit s);
  valid_kp_usage : is_int (kp_usage s);
  valid_kp_bonus : is_int (kp_bonus s);
  valid_tuto_lvl : is_nat (tuto_lvl s);
  valid_persrare : is_int (persrare s) ∧ #1 ≤ persrare s
}.

(** The ranges the specification gives for the five outputs. *)
Definition odds_in_range (o : odds) : Prop :=
  (#0 ≤ specific_roll_odds o ∧ specific_roll_odds o ≤ #1) ∧
  (#0 ≤ specific_wish_odds o ∧ specific_wish_odds o ≤ #1) ∧
  (#0 ≤ kspawn_odds o ∧ kspawn_odds o ≤ #1) ∧
  #0 ≤ wish_odds o ∧ #0 ≤ star_wish_odds o.

(** *** Concrete inputs *)

Definition base1 : loc := 1%positive.
Definition heap1 (r : stats) : heap := {[base1 := r]}.

(** The default statistics at a given tutorial level. *)
Definition tutoStats (lvl : Qc) : stats :=
  mkStats #10 #5 #1 #0 #0 #0 CARD_TOTAL #0 #100 #100 #0 false lvl #1.

(** The default statistics on an original server. *)
Definition ogStats : stats :=
  mkStats #10 #5 #1 #0 #0 #0 CARD_TOTAL #0 #100 #100 #0 true #0 #1.

(** One card left, none disabled, [w_boost = 200], [sw_boost = -400]. *)
Definition boostedStats : stats :=
  mkStats #10 #5 #1 #200 #(-400) #0 #1 #43847 #100 #100 #0 false #0 #1.

(** The defaults with one card left: a valid record with a small pool. *)
Definition lastCardStats : stats :=
  mkStats #10 #5 #1 #0 #0 #0 #1 #43847 #100 #100 #0 false #0 #1.

Ltac stats_eq :=
  unfold addDelta, dplus, dzero, set_rolls, set_w_slots, set_w_boost,
    set_sw_boost, set_kp_usage, set_cards_claimed; simpl;
  f_equal; ring.

Ltac show_int := match goal with |- is_int #?z => by exists z end.
Ltac show_nat := split; [show_int | by vm_compute].

(** ** The helper for forms *)

Definition set_persrare (v : Qc) (s : stats) : stats :=
  mkStats (rolls s) (w_slots s) (sw_slots s) (w_boost s) (sw_boost s)
    (disabled_cards s) (cards_left s) (cards_claimed s) (kp_limit s)
    (kp_usage s) (kp_bonus s) (og_server s) (tuto_lvl s) v.

(** [Boolean(v)]: [undefined], [null], [false], [NaN] and [0] are falsy. *)
Definition Boolean (v : jsval) : bool :=
  match v with
  | VUndefined => false
  | VNull => false
  | VBool b => b
  | VNum NaN => false
  | VNum (Fin q) => bool_decide (q ≠ #0)
  end.

(** [v || d] for a numeric default [d]. *)
Definition or_else (v : jsval) (d : Qc) : jsval :=
  if Boolean v then v else VNum (Fin d).

(** The number stored in a field of a statistics record.  A record holds
    no [NaN]; [Number_or_else] shows that [Number(v || d)] is never one. *)
Definition numberValue (n : jsnum) : Qc :=
  match n with
  | Fin q => q
  | NaN => #0
  end.

(** [Number(v || d)]. *)
Definition NumberOr (v : jsval) (d : Qc) : Qc :=
  numberValue (Number (or_else v d)).

(** The argument of [calculateFromInputs], restricted to values that a
    statistics record can hold: a field that is not coerced is absent or a
    number; a field that is coerced is any value ([VUndefined] when absent:
    the coercions treat an absent and an undefined field alike).  String
    values are outside this model. *)
Record inputs : Type := mkInputs {
  in_rolls : option Qc;
  in_w_slots : option Qc;
  in_sw_slots : option Qc;
  in_w_boost : option Qc;
  in_sw_boost : option Qc;
  in_disabled_cards : jsval;
  in_cards_left : jsval;
  in_cards_claimed : option Qc;
  in_kp_limit : option Qc;
  in_kp_usage : option Qc;
  in_kp_bonus : option Qc;
  in_og_server : jsval;
  in_tuto_lvl : jsval;
  in_persrare : jsval;
  in_upgrades : option entries
}.

(** The contents of [base] after [Object.assign(base, inputs)] and the five
    coercions, before it is passed on. *)
Definition normalize (i : inputs) : stats :=
  {| rolls := default (rolls defaultStats) (in_rolls i);
     w_slots := default (w_slots defaultStats) (in_w_slots i);
     sw_slots := default (sw_slots defaultStats) (in_sw_slots i);
     w_boost := default (w_boost defaultStats) (in_w_boost i);
     sw_boost := default (sw_boost defaultStats) (in_sw_boost i);
     disabled_cards := NumberOr (in_disabled_cards i) #0;
     cards_left := NumberOr (in_cards_left i) CARD_TOTAL;
     cards_claimed := default (cards_claimed defaultStats) (in_cards_claimed i);
     kp_limit := default (kp_limit defaultStats) (in_kp_limit i);
     kp_usage := default (kp_usage defaultStats) (in_kp_usage i);
     kp_bonus := default (kp_bonus defaultStats) (in_kp_bonus i);
     og_server := Boolean (in_og_server i);
     tuto_lvl := NumberOr (in_tuto_lvl i) #0;
     persrare := NumberOr (in_persrare i) #1 |}.

(** [base] is a new object, filled in as [normalize] says; the result of
    [computeEffectiveStats] is read by [calculateOdds]. *)
Definition calculateFromInputs (i : inputs) : M odds :=
  base ← new (normalize i);
  stats ← computeEffectiveStats base (Some (default [] (in_upgrades i)));
  s ← get stats;
  mret (calculateOdds s).

(** [inputs] with another [cards_left], and with another [persrare]. *)
Definition with_cards_left (v : jsval) (i : inputs) : inputs :=
  mkInputs (in_rolls i) (in_w_slots i) (in_sw_slots i) (in_w_boost i)
    (in_sw_boost i) (in_disabled_cards i) v (in_cards_claimed i)
    (in_kp_limit i) (in_kp_usage i) (in_kp_bonus i) (in_og_server i)
    (in_tuto_lvl i) (in_persrare i) (in_upgrades i).

Definition with_persrare (v : jsval) (i : inputs) : inputs :=
  mkInputs (in_rolls i) (in_w_slots i) (in_sw_slots i) (in_w_boost i)
    (in_sw_boost i) (in_disabled_cards i) (in_cards_left i)
    (in_cards_claimed i) (in_kp_limit i) (in_kp_usage i) (in_kp_bonus i)
    (in_og_server i) (in_tuto_lvl i) v (in_upgrades i).

(** The inputs that set nothing. *)
Definition noInputs : inputs :=
  mkInputs None None None None None VUndefined VUndefined None None None
    None VUndefined VUndefined VUndefined None.

(** The tutorial bonus of a level. *)
Definition tutoBonus (lvl : Qc) : Qc :=
  if bool_decide (#16 ≤ lvl) then #100
  else if bool_decide (#10 ≤ lvl) then #50 else #0.

(** The bonus of an original server. *)
Definition ogBonus (og : bool) : Qc := if og then #3 else #0.

(** The property names every object literal inherits from
    [Object.prototype].  [UPGRADE_EFFECTS[name]] finds them too. *)
Definition objectPrototypeNames : list string :=
  ["constructor"; "hasOwnProperty"; "isPrototypeOf"; "propertyIsEnumerable";
   "toLocaleString"; "toString"; "valueOf"; "__lookupGetter__";
   "__lookupSetter__"; "__defineGetter__"; "__defineSetter__";
   "__proto__"]%string.

(** ** The aggregator over IEEE doubles

    The same code with every number a binary64 double and every operation
    rounded as JavaScript rounds it.  Aliasing is not at issue here (see
    the heap model above), so the working copy is passed explicitly.  The
    result is [None] when the call throws. *)
Module Double.
Import PrimFloat.
Local Open Scope float_scope.

Definition CARD_TOTAL : float := 43848.

Record stats : Type := mkStats {
  rolls : float;
  w_slots : float;
  sw_slots : float;
  w_boost : float;
  sw_boost : float;
  disabled_cards : float;
  cards_left : float;
  cards_claimed : float;
  kp_limit : float;
  kp_usage : float;
  kp_bonus : float;
  og_server : bool;
  tuto_lvl : float;
  persrare : float
}.

Definition set_rolls (v : float) (s : stats) : stats :=
  mkStats v (w_slots s) (sw_slots s) (w_boost s) (sw_boost s)
    (disabled_cards s) (cards_left s) (cards_claimed s) (kp_limit s)
    (kp_usage s) (kp_bonus s) (og_server s) (tuto_lvl s) (persrare s).

Definition set_w_slots (v : float) (s : stats) : stats :=
  mkStats (rolls s) v (sw_slots s) (w_boost s) (sw_boost s)
    (disabled_cards s) (cards_left s) (cards_claimed s) (kp_limit s)
    (kp_usage s) (kp_bonus s) (og_server s) (tuto_lvl s) (persrare s).

Definition set_w_boost (v : float) (s : stats) : stats :=
  mkStats (rolls s) (w_slots s) (sw_slots s) v (sw_boost s)
    (disabled_cards s) (cards_left s) (cards_claimed s) (kp_limit s)
    (kp_usage s) (kp_bonus s) (og_server s) (tuto_lvl s) (persrare s).

Definition set_sw_boost (v : float) (s : stats) : stats :=
  mkStats (rolls s) (w_slots s) (sw_slots s) (w_boost s) v
    (disabled_cards s) (cards_left s) (cards_claimed s) (kp_limit s)
    (kp_usage s) (kp_bonus s) (og_server s) (tuto_lvl s) (persrare s).

Definition set_kp_usage (v : float) (s : stats) : stats :=
  mkStats (rolls s) (w_slots s) (sw_slots s) (w_boost s) (sw_boost s)
    (disabled_cards s) (cards_left s) (cards_claimed s) (kp_limit s)
    v (kp_bonus s) (og_server s) (tuto_lvl s) (persrare s).

Definition set_cards_claimed (v : float) (s : stats) : stats :=
  mkStats (rolls s) (w_slots s) (sw_slots s) (w_boost s) (sw_boost s)
    (disabled_cards s) (cards_left s) v (kp_limit s)
    (kp_usage s) (kp_bonus s) (og_server s) (tuto_lvl s) (persrare s).

Definition defaultStats : stats :=
  {| rolls := 10; w_slots := 5; sw_slots := 1; w_boost := 0;
     sw_boost := 0; disabled_cards := 0; cards_left := CARD_TOTAL;
     cards_claimed := 0; kp_limit := 100; kp_usage := 100;
     kp_bonus := 0; og_server := false; tuto_lvl := 0; persrare := 1 |}.

(** The values an upgrade level is given as; a numeric string stands for
    the double it denotes. *)
Inductive jsval : Type :=
  | VUndefined
  | VNull
  | VBool (b : bool)
  | VNum (x : float).

Definition Number (v : jsval) : float :=
  match v with
  | VUndefined => nan
  | VNull => 0
  | VBool true => 1
  | VBool false => 0
  | VNum x => x
  end.

(** [n || 0]: [NaN], [0] and [-0] are falsy. *)
Definition or_zero (n : float) : float :=
  if is_nan n || is_zero n then 0 else n.

Definition effect : Type := stats → float → stats.

Definition Bronze : effect := λ s level,
  set_w_slots (w_slots s + level * 1) s.

Definition Silver : effect := λ s level,
  set_w_boost (w_boost s + level * 25) s.

Definition Gold : effect := λ s level,
  set_kp_usage (kp_usage s - level * 10) s.

Definition Sapphire : effect := λ s level,
  set_rolls (rolls s + level * 1) s.

Definition Ruby : effect := λ s level,
  let s := if 1 <=? level then set_w_slots (w_slots s + 2) s else s in
  let s := if 2 <=? level then set_w_boost (w_boost s + 50) s else s in
  let s := if 3 <=? level then set_kp_usage (kp_usage s - 20) s else s in
  if 4 <=? level then set_rolls (rolls s + 2) s else s.

(** What [UPGRADE_EFFECTS[name](stats, nLevel)] finds and calls: one of the
    five effects; a method inherited from [Object.prototype] that returns
    without touching [stats]; or an inherited value whose call throws a
    [TypeError] ([__defineGetter__] and [__defineSetter__] reject a number
    as accessor, and [__proto__] is the prototype object, not a
    function). *)
Inductive property : Type :=
  | Effect (f : effect)
  | Inert
  | Throws.

Definition UPGRADE_EFFECTS (name : string) : option property :=
  if decide (name = "Bronze"%string) then Some (Effect Bronze)
  else if decide (name = "Silver"%string) then Some (Effect Silver)
  else if decide (name = "Gold"%string) then Some (Effect Gold)
  else if decide (name = "Sapphire"%string) then Some (Effect Sapphire)
  else if decide (name = "Ruby"%string) then Some (Effect Ruby)
  else if bool_decide
            (name ∈ ["__defineGetter__"; "__defineSetter__";
                     "__proto__"]%string) then Some Throws
  else if bool_decide (name ∈ objectPrototypeNames) then Some Inert
  else None.

Definition tutoCheck (s : stats) : stats :=
  if 16 <=? tuto_lvl s then set_sw_boost (sw_boost s + 100) s
  else if 10 <=? tuto_lvl s then set_sw_boost (sw_boost s + 50) s
  else s.

Definition entries : Type := list (string * jsval).

(** The body of the [forEach] callback. *)
Definition applyEntry (s : stats) (e : string * jsval) : option stats :=
  let '(name, level) := e in
  let nLevel := or_zero (Number level) in
  if 0 <? nLevel then
    match UPGRADE_EFFECTS name with
    | Some (Effect f) => Some (f s nLevel)
    | Some Inert => Some s
    | Some Throws => None
    | None => Some s
    end
  else Some s.

Fixpoint forEach (es : entries) (s : stats) : option stats :=
  match es with
  | [] => Some s
  | e :: es' =>
      match applyEntry s e with
      | Some s' => forEach es' s'
      | None => None
      end
  end.

Definition computeEffectiveStats (baseStats : stats)
    (upgrades : option entries) : option stats :=
  match forEach (default [] upgrades) baseStats with
  | Some s =>
      let s := if og_server s then set_rolls (rolls s + 3) s else s in
      let s := tutoCheck s in
      Some (set_cards_claimed (CARD_TOTAL - cards_left s) s)
  | None => None
  end.





End Double.

(** * Properties *)

(** ** Arithmetic on exact rationals *)

Lemma Zc_le (n m : Z) : (n ≤ m)%Z → #n ≤ #m.
Proof. apply Z2Qc_inj_le. Qed.

Lemma Zc_lt (n m : Z) : (n < m)%Z → #n < #m.
Proof. apply Z2Qc_inj_lt. Qed.

Lemma Zc_neq (n m : Z) : n ≠ m → #n ≠ #m.
Proof. intros H E. by apply Z2Qc_inj in E. Qed.

Lemma Qcdiv_nonneg x y : #0 ≤ x → #0 < y → #0 ≤ x / y.
Proof.
  rewrite Z2Qc_inj_0. intros Hx Hy. unfold Qcdiv.
  apply Qcmult_nonneg_nonneg; [done|]. by apply Qclt_le_weak, Qcinv_pos.
Qed.

Lemma Qcdiv_le_1 x y : #0 < y → x ≤ y → x / y ≤ #1.
Proof.
  intros Hy Hxy. rewrite Z2Qc_inj_0 in Hy. rewrite Z2Qc_inj_1.
  apply (Qcmult_le_mono_pos_r _ _ y Hy).
  unfold Qcdiv. rewrite <- Qcmult_assoc, Qcmult_inv_l, Qcmult_1_r, Qcmult_1_l.
  - done.
  - intros ->. by apply Qclt_not_eq in Hy.
Qed.

Lemma mult_nonneg w : #(-100) ≤ w → #0 ≤ #1 + w / #100.
Proof.
  intros Hw.
  replace (#1 + w / #100) with ((#100 + w) / #100).
  - apply Qcdiv_nonneg; [|by apply Zc_lt].
    apply (Qcplus_le_mono_l _ _ #100) in Hw.
    by replace (#100 + #(-100)) with #0 in Hw by by apply Qc_is_canon.
  - rewrite Z2Qc_inj_1. field. rewrite <- Z2Qc_inj_0. by apply Zc_neq.
Qed.

Lemma mult_le_avail w a : w ≤ #100 * (a - #1) → #1 + w / #100 ≤ a.
Proof.
  intros Hw.
  assert (Ha : #1 + (#100 * (a - #1)) / #100 = a).
  { rewrite Z2Qc_inj_1. field. rewrite <- Z2Qc_inj_0. by apply Zc_neq. }
  rewrite <- Ha at 1.
  apply Qcplus_le_mono_l. unfold Qcdiv.
  apply Qcmult_le_mono_nonneg_r; [|done].
  apply Qclt_le_weak, Qcinv_pos. rewrite <- Z2Qc_inj_0. by apply Zc_lt.
Qed.

Lemma Math_max_l a b : a ≤ Math_max a b.
Proof. unfold Math_max. case_decide; [done|apply Qcle_refl]. Qed.

Lemma Math_max_lub a b c : a ≤ c → b ≤ c → Math_max a b ≤ c.
Proof. unfold Math_max. by case_decide. Qed.

Lemma Math_min_l a b : Math_min a b ≤ a.
Proof.
  unfold Math_min. case_decide as H; [apply Qcle_refl|].
  by apply Qclt_le_weak, Qcnot_le_lt.
Qed.

(** ** What a computation does to the object it works on *)

Section acts.
Context (l : loc).

Lemma acts_ret : acts l (ret tt) id.
Proof. intros h r Hl. unfold ret. by rewrite insert_id. Qed.

Lemma acts_assign f : acts l (assign l f) f.
Proof.
  intros h r Hl. unfold assign, mbind, M_bind, bind, get, put.
  by rewrite Hl, Hl.
Qed.

Lemma acts_seq m1 m2 f g :
  acts l m1 f → acts l m2 g → acts l (m1;; m2) (g ∘ f).
Proof.
  intros H1 H2 h r Hl. unfold mbind, M_bind, bind.
  rewrite (H1 h r Hl).
  rewrite (H2 _ (f r)) by apply lookup_insert_eq.
  by rewrite insert_insert_eq.
Qed.

Lemma acts_when (b : bool) m f :
  acts l m f → acts l (when b m) (if b then f else id).
Proof. destruct b; [done | intros _; apply acts_ret]. Qed.

Lemma acts_ext m f g : (∀ r, f r = g r) → acts l m f → acts l m g.
Proof. intros Hfg H h r Hl. rewrite <- Hfg. by apply H. Qed.

(** Reading the object first and then choosing what to do. *)
Lemma acts_get (k : stats → M unit) (f : stats → stats → stats) :
  (∀ s, acts l (k s) (f s)) → acts l (s ← get l; k s) (λ r, f r r).
Proof.
  intros H h r Hl. unfold mbind, M_bind, bind, get.
  rewrite Hl. by apply H.
Qed.

Lemma acts_forEach {A} (f : A → M unit) (g : A → stats → stats) xs :
  (∀ x, acts l (f x) (g x)) →
  acts l (forEach xs f) (λ r, foldl (λ r x, g x r) r xs).
Proof.
  intros H. induction xs as [|x xs IH]; simpl.
  - apply acts_ret.
  - eapply acts_ext; [|apply acts_seq; [apply H | apply IH]]. done.
Qed.
End acts.

(** ** The steps of the aggregator as record transformations *)

Lemma Ruby_acts l level : acts l (Ruby l level) (rubyRec level).
Proof.
  unfold Ruby.
  eapply acts_ext;
    [|repeat (apply acts_seq || apply acts_when || apply acts_assign)].
  intros r. unfold rubyRec. simpl.
  repeat case_bool_decide; reflexivity.
Qed.

Lemma UPGRADE_EFFECTS_unknown name :
  name ≠ "Bronze" → name ≠ "Silver" → name ≠ "Gold" →
  name ≠ "Sapphire" → name ≠ "Ruby" →
  UPGRADE_EFFECTS !! name = None.
Proof.
  intros HB HS HG HSa HR. unfold UPGRADE_EFFECTS.
  apply not_elem_of_list_to_map. simpl. intros Hin.
  repeat (apply elem_of_cons in Hin as [Hin|Hin]; [congruence|]).
  by apply elem_of_nil in Hin.
Qed.

Lemma applyEntry_acts l e : acts l (applyEntry l e) (entryRec e).
Proof.
  destruct e as [name level]. unfold applyEntry, entryRec.
  case_bool_decide; [|apply acts_ret].
  destruct (decide (name = "Bronze")) as [->|]; [apply acts_assign|].
  destruct (decide (name = "Silver")) as [->|]; [apply acts_assign|].
  destruct (decide (name = "Gold")) as [->|]; [apply acts_assign|].
  destruct (decide (name = "Sapphire")) as [->|]; [apply acts_assign|].
  destruct (decide (name = "Ruby")) as [->|]; [apply Ruby_acts|].
  rewrite UPGRADE_EFFECTS_unknown by done. apply acts_ret.
Qed.

Lemma tutoCheck_acts l : acts l (tutoCheck l) tutoRec.
Proof.
  unfold tutoCheck.
  eapply acts_ext; [|apply acts_get with
    (f := λ s r, if bool_decide (#16 ≤ tuto_lvl s)
                 then set_sw_boost (sw_boost r + #100) r
                 else if bool_decide (#10 ≤ tuto_lvl s)
                      then set_sw_boost (sw_boost r + #50) r else r)].
  - done.
  - intros s. repeat case_bool_decide;
      first [apply acts_assign | apply acts_ret].
Qed.

Lemma finish_acts l : acts l (finish l) (λ r, claimedRec (tutoRec (ogRec r))).
Proof.
  unfold finish.
  pose (F := λ s r : stats, claimedRec (tutoRec
    ((if og_server s then (λ r, set_rolls (rolls r + #3) r) else id) r))).
  apply (acts_ext l _ (λ r, F r r)).
  { intros r. unfold F, ogRec. by destruct (og_server r). }
  apply (acts_get l _ F). intros s.
  apply (acts_seq l _ _
    (if og_server s then (λ r, set_rolls (rolls r + #3) r) else id)
    (claimedRec ∘ tutoRec)).
  - apply acts_when, acts_assign.
  - apply (acts_seq l _ _ tutoRec claimedRec).
    + apply tutoCheck_acts.
    + apply acts_assign.
Qed.

(** [computeEffectiveStats] allocates one object, the copy, and returns
    it holding [effective]; it fails only on a dangling [baseStats]. *)
Lemma computeEffectiveStats_run (h : heap) b r ups :
  h !! b = Some r →
  computeEffectiveStats b ups h =
    Some (fresh (dom h),
          <[fresh (dom h) := effective r (default [] ups)]> h).
Proof.
  intros Hb. unfold computeEffectiveStats.
  unfold mbind at 1, M_bind at 1, bind at 1, get at 1. rewrite Hb.
  unfold mbind at 1, M_bind at 1, bind at 1, new.
  set (l := fresh (dom h)). set (h1 := <[l := r]> h).
  assert (Hl : h1 !! l = Some r) by apply lookup_insert_eq.
  pose proof (acts_seq l _ _ _ _
    (acts_forEach l _ _ (default [] ups) (applyEntry_acts l))
    (finish_acts l) h1 r Hl) as Hacts.
  unfold finish in Hacts.
  unfold mbind, M_bind, bind in *.
  destruct (forEach (default [] ups) (applyEntry l) h1) as [[[] h2]|];
    [|discriminate].
  destruct (get l h2) as [[s h3]|]; [|discriminate].
  destruct (when _ _ h3) as [[[] h4]|]; [|discriminate].
  destruct (tutoCheck l h4) as [[[] h5]|]; [|discriminate].
  rewrite Hacts. unfold mret, M_ret, ret.
  subst h1. by rewrite insert_insert_eq.
Qed.

Lemma computeEffectiveStats_dangling (h : heap) b ups :
  h !! b = None → computeEffectiveStats b ups h = None.
Proof.
  intros Hb. unfold computeEffectiveStats.
  unfold mbind at 1, M_bind at 1, bind at 1, get at 1. by rewrite Hb.
Qed.

(** ** Upgrade effects as increments *)

Lemma addDelta_dzero r : addDelta dzero r = r.
Proof. destruct r. stats_eq. Qed.

Lemma addDelta_dplus a b r : addDelta b (addDelta a r) = addDelta (dplus a b) r.
Proof. stats_eq. Qed.

Lemma dplus_comm a b : dplus a b = dplus b a.
Proof. unfold dplus. f_equal; ring. Qed.

Lemma dplus_assoc a b c : dplus a (dplus b c) = dplus (dplus a b) c.
Proof. unfold dplus. simpl. f_equal; ring. Qed.

Lemma rubyRec_delta level r : rubyRec level r = addDelta (rubyDelta level) r.
Proof.
  destruct r. unfold rubyRec, rubyDelta.
  repeat case_bool_decide; stats_eq.
Qed.

Lemma entryRec_delta e r : entryRec e r = addDelta (entryDelta e) r.
Proof.
  destruct e as [name level]. unfold entryRec, entryDelta.
  case_bool_decide; [|by rewrite addDelta_dzero].
  repeat case_decide; try apply rubyRec_delta;
    try (by rewrite addDelta_dzero); destruct r; stats_eq.
Qed.

Lemma foldl_entryRec es r :
  foldl (λ r e, entryRec e r) r es = addDelta (totalDelta es) r.
Proof.
  revert r. induction es as [|e es IH]; intros r; simpl.
  - by rewrite addDelta_dzero.
  - by rewrite IH, entryRec_delta, addDelta_dplus.
Qed.

Lemma totalDelta_cons e es :
  totalDelta (e :: es) = dplus (entryDelta e) (totalDelta es).
Proof. reflexivity. Qed.

Lemma totalDelta_app es1 es2 :
  totalDelta (es1 ++ es2) = dplus (totalDelta es1) (totalDelta es2).
Proof.
  induction es1 as [|e es1 IH]; simpl.
  - unfold dplus, dzero. destruct (totalDelta es2). simpl. f_equal; ring.
  - by rewrite IH, dplus_assoc.
Qed.

Lemma totalDelta_Permutation es1 es2 :
  Permutation es1 es2 → totalDelta es1 = totalDelta es2.
Proof.
  induction 1 as [|e es1 es2 _ IH|e1 e2 es|es1 es2 es3 _ IH1 _ IH2]; simpl.
  - done.
  - by rewrite IH.
  - by rewrite !dplus_assoc, (dplus_comm (entryDelta e2)).
  - by rewrite IH1.
Qed.

(** The record returned, field by field. *)
Lemma effective_eq r es :
  effective r es =
    claimedRec (tutoRec (ogRec (addDelta (totalDelta es) r))).
Proof. unfold effective. by rewrite foldl_entryRec. Qed.

Lemma tutoRec_frame r :
  rolls (tutoRec r) = rolls r ∧ w_slots (tutoRec r) = w_slots r ∧
  sw_slots (tutoRec r) = sw_slots r ∧ w_boost (tutoRec r) = w_boost r ∧
  disabled_cards (tutoRec r) = disabled_cards r ∧
  cards_left (tutoRec r) = cards_left r ∧
  cards_claimed (tutoRec r) = cards_claimed r ∧
  kp_limit (tutoRec r) = kp_limit r ∧ kp_usage (tutoRec r) = kp_usage r ∧
  kp_bonus (tutoRec r) = kp_bonus r ∧ og_server (tutoRec r) = og_server r ∧
  tuto_lvl (tutoRec r) = tuto_lvl r ∧ persrare (tutoRec r) = persrare r.
Proof. unfold tutoRec. repeat case_bool_decide; done. Qed.

Lemma ogRec_frame r :
  w_slots (ogRec r) = w_slots r ∧ sw_slots (ogRec r) = sw_slots r ∧
  w_boost (ogRec r) = w_boost r ∧ sw_boost (ogRec r) = sw_boost r ∧
  disabled_cards (ogRec r) = disabled_cards r ∧
  cards_left (ogRec r) = cards_left r ∧
  cards_claimed (ogRec r) = cards_claimed r ∧
  kp_limit (ogRec r) = kp_limit r ∧ kp_usage (ogRec r) = kp_usage r ∧
  kp_bonus (ogRec r) = kp_bonus r ∧ og_server (ogRec r) = og_server r ∧
  tuto_lvl (ogRec r) = tuto_lvl r ∧ persrare (ogRec r) = persrare r.
Proof. unfold ogRec. destruct (og_server r) eqn:E; simpl; rewrite ?E; done. Qed.

Lemma rubyDelta_cap level : #4 ≤ level → rubyDelta level = rubyDelta #4.
Proof.
  intros H4. unfold rubyDelta.
  assert (H3 : #3 ≤ level) by (etrans; [apply Zc_le|exact H4]; lia).
  assert (H2 : #2 ≤ level) by (etrans; [apply Zc_le|exact H4]; lia).
  assert (H1 : #1 ≤ level) by (etrans; [apply Zc_le|exact H4]; lia).
  rewrite !bool_decide_eq_true_2; try done; by apply Zc_le.
Qed.

Lemma entryDelta_Ruby level :
  #0 < level → entryDelta ("Ruby"%string, VNum (Fin level)) = rubyDelta level.
Proof.
  intros H0. unfold entryDelta, Number, or_zero.
  rewrite bool_decide_eq_true_2 by done.
  repeat (case_decide; [discriminate|]). by case_decide.
Qed.


(** The tutorial bonus seen from [computeEffectiveStats]: no upgrade
    touches [sw_boost] or [tuto_lvl], so the record returned carries the
    base [sw_boost] plus the bonus of the base [tuto_lvl]. *)
Lemma computeEffectiveStats_sw_boost (h : heap) b r ups :
  h !! b = Some r →
  ∃ l h' r', computeEffectiveStats b ups h = Some (l, h') ∧
             h' !! l = Some r' ∧
             sw_boost r' =
               if bool_decide (#16 ≤ tuto_lvl r) then sw_boost r + #100
               else if bool_decide (#10 ≤ tuto_lvl r) then sw_boost r + #50
               else sw_boost r.
Proof.
  intros Hb. eexists _, _, _.
  split; [by apply computeEffectiveStats_run|].
  split; [apply lookup_insert_eq|].
  rewrite effective_eq. unfold claimedRec. simpl.
  set (r0 := addDelta _ r).
  assert (Ht : tuto_lvl (ogRec r0) = tuto_lvl r).
  { destruct (ogRec_frame r0) as (_ & _ & _ & _ & _ & _ & _ & _ & _ & _ & _
      & -> & _). done. }
  assert (Hs : sw_boost (ogRec r0) = sw_boost r).
  { destruct (ogRec_frame r0) as (_ & _ & _ & -> & _). done. }
  unfold tutoRec. rewrite Ht.
  repeat case_bool_decide; simpl; by rewrite Hs.
Qed.

(** ** Examples from the specification *)

(** Defaults with [{Bronze: 2, Silver: 1}]: [w_slots = 7], [w_boost = 25],
    and [specific_wish_odds] is 1.25 / 43848. *)
Example bronze2_silver1 :
  ∃ l h' r',
    computeEffectiveStats base1
      (Some [("Bronze"%string, VNum (Fin #2));
             ("Silver"%string, VNum (Fin #1))]) (heap1 defaultStats)
      = Some (l, h') ∧
    h' !! l = Some r' ∧ w_slots r' = #7 ∧ w_boost r' = #25 ∧
    specific_wish_odds (calculateOdds r') = #125 / #100 / #43848 ∧
    wish_odds (calculateOdds r') = #6 * (#125 / #100 / #43848).
Proof.
  eexists _, _, _.
  split; [by apply (computeEffectiveStats_run _ _ defaultStats)|].
  split; [apply lookup_insert_eq|].
  repeat split; by apply Qc_is_canon.
Qed.

(** ** The odds calculator *)

(** C1. When [available = cards_left - disabled_cards <= 0],
    [calculateOdds] returns the result whose five fields are exactly 0. *)
Theorem calculateOdds_degenerate s :
  cardsAvailable s ≤ #0 →
  calculateOdds s = mkOdds #0 #0 #0 #0 #0 ∧
  specific_roll_odds (calculateOdds s) = #0 ∧
  specific_wish_odds (calculateOdds s) = #0 ∧
  wish_odds (calculateOdds s) = #0 ∧
  star_wish_odds (calculateOdds s) = #0 ∧
  kspawn_odds (calculateOdds s) = #0.
Proof.
  intros H. unfold calculateOdds. by rewrite bool_decide_eq_true_2.
Qed.

Lemma calculateOdds_degenerate_witness :
  cardsAvailable
    (mkStats #10 #5 #1 #0 #0 #5 #0 #43848 #100 #100 #0 false #0 #1) ≤ #0 ∧
  calculateOdds
    (mkStats #10 #5 #1 #0 #0 #5 #0 #43848 #100 #100 #0 false #0 #1)
  = mkOdds #0 #0 #0 #0 #0.
Proof.
  split; [by vm_compute|].
  apply (calculateOdds_degenerate
    (mkStats #10 #5 #1 #0 #0 #5 #0 #43848 #100 #100 #0 false #0 #1)).
  by vm_compute.
Defined.

Lemma boostedStats_valid : valid_stats boostedStats.
Proof.
  split; simpl; try show_nat; try show_int.
  split; [show_nat|]. by apply Qc_is_canon.
Qed.

(** C2, as stated, fails: [boostedStats] is a valid record with
    [available = 1 > 0], yet [specific_wish_odds] is 3, above 1, and
    [star_wish_odds] is -1, below 0.  (The first does not depend on
    [sw_boost].) *)
Lemma boosted_out_of_range :
  valid_stats boostedStats ∧ #0 < cardsAvailable boostedStats ∧
  specific_wish_odds (calculateOdds boostedStats) = #3 ∧
  star_wish_odds (calculateOdds boostedStats) = #(-1) ∧
  ¬ odds_in_range (calculateOdds boostedStats).
Proof.
  split; [apply boostedStats_valid|].
  split; [by vm_compute|].
  assert (H3 : specific_wish_odds (calculateOdds boostedStats) = #3)
    by by apply Qc_is_canon.
  assert (H1 : star_wish_odds (calculateOdds boostedStats) = #(-1))
    by by apply Qc_is_canon.
  split; [done|]. split; [done|].
  intros (_ & [_ Hle] & _). rewrite H3 in Hle. by vm_compute in Hle.
Qed.

(** With non-negative boosts too: one Silver level on the last card. *)
Example silver_on_last_card :
  specific_wish_odds (calculateOdds (set_w_boost #25 lastCardStats))
    = #125 / #100.
Proof. by apply Qc_is_canon. Qed.

Lemma available_ge_1 s :
  is_nat (cards_left s) → is_nat (disabled_cards s) →
  #0 < cardsAvailable s → #1 ≤ cardsAvailable s.
Proof.
  intros [[cl Hcl] _] [[dc Hdc] _]. unfold cardsAvailable.
  rewrite Hcl, Hdc, <- Z2Qc_inj_sub.
  intros Hpos. apply Z2Qc_inj_lt in Hpos. apply Zc_le. lia.
Qed.

(** C2, amended.  For every valid record with [available > 0]:
    [specific_roll_odds] and [kspawn_odds] lie in [0,1];
    [specific_wish_odds] and [wish_odds] are [>= 0] when
    [w_boost >= -100]; [star_wish_odds] is [>= 0] when
    [w_boost + sw_boost >= -100]; and [specific_wish_odds <= 1] when
    [w_boost <= 100 * (available - 1)].  No output is capped besides
    [kspawn_odds]. *)
Theorem calculateOdds_ranges s :
  valid_stats s → #0 < cardsAvailable s →
  let o := calculateOdds s in
  (#0 ≤ specific_roll_odds o ∧ specific_roll_odds o ≤ #1) ∧
  (#0 ≤ kspawn_odds o ∧ kspawn_odds o ≤ #1) ∧
  (#(-100) ≤ w_boost s →
     #0 ≤ specific_wish_odds o ∧ #0 ≤ wish_odds o) ∧
  (#(-100) ≤ w_boost s + sw_boost s → #0 ≤ star_wish_odds o) ∧
  (w_boost s ≤ #100 * (cardsAvailable s - #1) →
     specific_wish_odds o ≤ #1).
Proof.
  intros Hv Hpos o. subst o. unfold calculateOdds.
  rewrite bool_decide_eq_false_2 by by apply Qclt_not_le.
  simpl.
  pose proof (available_ge_1 s (valid_cards_left s Hv)
                (valid_disabled_cards s Hv) Hpos) as Hge.
  set (a := cardsAvailable s) in *.
  assert (Hb0 : #0 ≤ #1 / a) by (apply Qcdiv_nonneg; [by apply Zc_le|done]).
  assert (Hb1 : #1 / a ≤ #1) by by apply Qcdiv_le_1.
  assert (Hmul : ∀ x y, #0 ≤ x → #0 ≤ y → #0 ≤ x * y).
  { intros x y. rewrite Z2Qc_inj_0. apply Qcmult_nonneg_nonneg. }
  repeat split.
  - done.
  - done.
  - apply Math_max_l.
  - apply Math_max_lub; [by apply Zc_le | apply Math_min_l].
  - apply Hmul; [done | by apply mult_nonneg].
  - apply Hmul; [apply Hmul; [apply Math_max_l | done] | by apply mult_nonneg].
  - intros Hws. apply Hmul; [apply Hmul; [|done] | by apply mult_nonneg].
    apply (valid_sw_slots s Hv).
  - intros Hhi.
    assert (Hone : #1 / a * a = #1).
    { rewrite Z2Qc_inj_1. field. intros E. rewrite E in Hpos.
      by vm_compute in Hpos. }
    apply Qcle_trans with (#1 / a * a); [|by rewrite Hone].
    apply Qcmult_le_mono_nonneg_l; [by rewrite <- Z2Qc_inj_0|].
    by apply mult_le_avail.
Qed.

Lemma calculateOdds_ranges_witness :
  valid_stats lastCardStats ∧ #0 < cardsAvailable lastCardStats ∧
  (#0 ≤ specific_roll_odds (calculateOdds lastCardStats) ∧
   specific_roll_odds (calculateOdds lastCardStats) ≤ #1) ∧
  (#0 ≤ kspawn_odds (calculateOdds lastCardStats) ∧
   kspawn_odds (calculateOdds lastCardStats) ≤ #1).
Proof.
  assert (Hv : valid_stats lastCardStats).
  { split; simpl; try show_nat; try show_int.
    split; [show_nat|]. by apply Qc_is_canon. }
  assert (Hpos : #0 < cardsAvailable lastCardStats) by by vm_compute.
  split; [exact Hv|]. split; [exact Hpos|].
  destruct (calculateOdds_ranges lastCardStats Hv Hpos) as (Hroll & Hk & _).
  split; [exact Hroll | exact Hk].
Defined.

(** ** The aggregator *)

(** C3. [computeEffectiveStats] returns a reference to a new object and
    leaves the object behind [baseStats], like every other object already
    in the heap, as it was. *)
Theorem computeEffectiveStats_base_unchanged (h : heap) b r ups :
  h !! b = Some r →
  ∃ l h', computeEffectiveStats b ups h = Some (l, h') ∧
          l ≠ b ∧ h !! l = None ∧ is_Some (h' !! l) ∧
          h' !! b = Some r ∧
          ∀ l', l' ≠ l → h' !! l' = h !! l'.
Proof.
  intros Hb. eexists _, _. split; [by apply computeEffectiveStats_run|].
  assert (Hfresh : h !! fresh (dom h) = None).
  { apply not_elem_of_dom, is_fresh. }
  assert (Hne : fresh (dom h) ≠ b) by congruence.
  repeat split.
  - done.
  - done.
  - rewrite lookup_insert_eq. by eexists.
  - by rewrite lookup_insert_ne.
  - intros l' Hl'. by rewrite lookup_insert_ne.
Qed.

Lemma computeEffectiveStats_base_unchanged_witness :
  heap1 defaultStats !! base1 = Some defaultStats ∧
  ∃ l h',
    computeEffectiveStats base1
      (Some [("Bronze"%string, VNum (Fin #2))]) (heap1 defaultStats)
      = Some (l, h') ∧
    l ≠ base1 ∧ heap1 defaultStats !! l = None ∧ is_Some (h' !! l) ∧
    h' !! base1 = Some defaultStats ∧
    ∀ l', l' ≠ l → h' !! l' = heap1 defaultStats !! l'.
Proof.
  split; [reflexivity|].
  apply (computeEffectiveStats_base_unchanged (heap1 defaultStats) base1
           defaultStats).
  reflexivity.
Defined.

(** C4, as stated, fails: with no upgrade at all, an [og_server] record
    still gets its 3 extra [rolls] (10 becomes 13), so more than
    [cards_claimed] differs from the base record. *)
Lemma empty_selection_changes_rolls :
  ∃ l h' r',
    computeEffectiveStats base1 (Some []) (heap1 ogStats) = Some (l, h') ∧
    h' !! l = Some r' ∧
    rolls ogStats = #10 ∧ rolls r' = #13 ∧
    r' ≠ set_cards_claimed (cards_claimed r') ogStats.
Proof.
  eexists _, _, _.
  split; [by apply (computeEffectiveStats_run _ _ ogStats)|].
  split; [apply lookup_insert_eq|].
  split; [reflexivity|].
  split; [by apply Qc_is_canon|].
  intros Heq. apply (f_equal rolls) in Heq. by vm_compute in Heq.
Qed.

(** C4, amended.  With an empty selection (or none) the record returned
    differs from the base record at most in [cards_claimed], which is
    recomputed, in [rolls], which gains 3 when [og_server] is set, and in
    [sw_boost], which gains the tutorial bonus; when [og_server] is unset
    and [tuto_lvl < 10] only [cards_claimed] can differ. *)
Theorem computeEffectiveStats_empty (h : heap) b r ups :
  h !! b = Some r →
  default [] ups = [] →
  ∃ l h' r',
    computeEffectiveStats b ups h = Some (l, h') ∧ h' !! l = Some r' ∧
    cards_claimed r' = CARD_TOTAL - cards_left r ∧
    rolls r' = (if og_server r then rolls r + #3 else rolls r) ∧
    sw_boost r' =
      (if bool_decide (#16 ≤ tuto_lvl r) then sw_boost r + #100
       else if bool_decide (#10 ≤ tuto_lvl r) then sw_boost r + #50
       else sw_boost r) ∧
    w_slots r' = w_slots r ∧ sw_slots r' = sw_slots r ∧
    w_boost r' = w_boost r ∧ disabled_cards r' = disabled_cards r ∧
    cards_left r' = cards_left r ∧ kp_limit r' = kp_limit r ∧
    kp_usage r' = kp_usage r ∧ kp_bonus r' = kp_bonus r ∧
    og_server r' = og_server r ∧ tuto_lvl r' = tuto_lvl r ∧
    persrare r' = persrare r ∧
    (og_server r = false → tuto_lvl r < #10 →
       r' = set_cards_claimed (CARD_TOTAL - cards_left r) r).
Proof.
  intros Hb Hups. eexists _, _, _.
  split; [by apply computeEffectiveStats_run|].
  split; [apply lookup_insert_eq|].
  rewrite Hups. unfold effective, claimedRec, tutoRec, ogRec. simpl.
  destruct r as [ro ws sws wb swb dc cl cc kl ku kb og tl pr]. simpl.
  destruct og; repeat case_bool_decide; simpl; repeat split; try done;
    intros _ Hlt; apply Qclt_not_le in Hlt; destruct Hlt; try done;
    (etrans; [apply Zc_le|eassumption]); lia.
Qed.

Lemma computeEffectiveStats_empty_witness :
  heap1 ogStats !! base1 = Some ogStats ∧
  default [] (Some ([] : entries)) = [] ∧
  ∃ l h' r',
    computeEffectiveStats base1 (Some []) (heap1 ogStats) = Some (l, h') ∧
    h' !! l = Some r' ∧
    cards_claimed r' = CARD_TOTAL - cards_left ogStats ∧
    rolls r' = rolls ogStats + #3.
Proof.
  split; [reflexivity|]. split; [reflexivity|].
  destruct (computeEffectiveStats_empty (heap1 ogStats) base1 ogStats
              (Some []) eq_refl eq_refl)
    as (l & h' & r' & Hrun & Hl & Hcc & Hrolls & _).
  exists l, h', r'. repeat split; assumption.
Defined.

(** C5. Ruby at any level of at least 4 (400, say) gives the same result
    as Ruby at level 4, whatever the other entries are; at such a level
    [UPGRADE_EFFECTS.Ruby] adds 2 to [w_slots], 50 to [w_boost], -20 to
    [kp_usage] and 2 to [rolls], each once. *)
Theorem Ruby_tier_cap (h : heap) b (pre post : entries) (level : Qc) :
  #4 ≤ level →
  computeEffectiveStats b
    (Some (pre ++ ("Ruby"%string, VNum (Fin level)) :: post)) h =
  computeEffectiveStats b
    (Some (pre ++ ("Ruby"%string, VNum (Fin #4)) :: post)) h
  ∧ ∀ l r, h !! l = Some r →
      Ruby l level h =
        Some (tt, <[l := set_rolls (rolls r + #2)
                           (set_kp_usage (kp_usage r - #20)
                             (set_w_boost (w_boost r + #50)
                               (set_w_slots (w_slots r + #2) r)))]> h).
Proof.
  intros H4.
  assert (H3 : #3 ≤ level) by (etrans; [apply Zc_le|exact H4]; lia).
  assert (H2 : #2 ≤ level) by (etrans; [apply Zc_le|exact H4]; lia).
  assert (H1 : #1 ≤ level) by (etrans; [apply Zc_le|exact H4]; lia).
  assert (H0 : #0 < level).
  { eapply Qclt_le_trans; [apply Zc_lt|exact H4]. lia. }
  split.
  - destruct (h !! b) as [r|] eqn:Hb.
    + rewrite !(computeEffectiveStats_run h b r) by done. simpl.
      rewrite !effective_eq, !totalDelta_app, !totalDelta_cons.
      rewrite !entryDelta_Ruby by (done || by apply Zc_lt).
      by rewrite rubyDelta_cap.
    + by rewrite !computeEffectiveStats_dangling.
  - intros l r Hl. rewrite (Ruby_acts l level h r Hl).
    unfold rubyRec. by rewrite !bool_decide_eq_true_2.
Qed.

Lemma Ruby_tier_cap_witness :
  #4 ≤ #400 ∧
  computeEffectiveStats base1
    (Some ([("Bronze"%string, VNum (Fin #1))] ++
           ("Ruby"%string, VNum (Fin #400)) :: [])) (heap1 defaultStats) =
  computeEffectiveStats base1
    (Some ([("Bronze"%string, VNum (Fin #1))] ++
           ("Ruby"%string, VNum (Fin #4)) :: [])) (heap1 defaultStats).
Proof.
  split; [by vm_compute|].
  apply (Ruby_tier_cap (heap1 defaultStats) base1
           [("Bronze"%string, VNum (Fin #1))] [] #400).
  by vm_compute.
Defined.

(** Over exact rationals the result of [computeEffectiveStats] does not
    depend on the order of the entries at all: the increments add up to the
    same sum.  The doubles of the code add in the order given and round at
    each step; see [Double] for what holds of them. *)
Theorem computeEffectiveStats_order_irrelevant
    (h : heap) b (es1 es2 : entries) :
  Permutation es1 es2 →
  computeEffectiveStats b (Some es1) h = computeEffectiveStats b (Some es2) h.
Proof.
  intros Hperm. destruct (h !! b) as [r|] eqn:Hb.
  - rewrite !(computeEffectiveStats_run h b r) by done. simpl.
    by rewrite !effective_eq, (totalDelta_Permutation es1 es2).
  - by rewrite !computeEffectiveStats_dangling.
Qed.

Lemma computeEffectiveStats_order_irrelevant_witness :
  Permutation
    [("Bronze"%string, VNum (Fin #2)); ("Ruby"%string, VNum (Fin #3))]
    [("Ruby"%string, VNum (Fin #3)); ("Bronze"%string, VNum (Fin #2))] ∧
  computeEffectiveStats base1
    (Some [("Bronze"%string, VNum (Fin #2)); ("Ruby"%string, VNum (Fin #3))])
    (heap1 defaultStats) =
  computeEffectiveStats base1
    (Some [("Ruby"%string, VNum (Fin #3)); ("Bronze"%string, VNum (Fin #2))])
    (heap1 defaultStats).
Proof.
  split; [apply perm_swap|].
  apply computeEffectiveStats_order_irrelevant. apply perm_swap.
Defined.

(** C7. [tutoCheck] adds exactly 100 to [sw_boost] when [tuto_lvl >= 16],
    exactly 50 when [10 <= tuto_lvl < 16], and nothing below 10; it changes
    no other field.  Every level from 16 up, 16 and 100 alike, gets the
    same +100. *)
Theorem tutoCheck_tiers (h : heap) l r :
  h !! l = Some r →
  ∃ r', tutoCheck l h = Some (tt, <[l := r']> h) ∧
        r' = set_sw_boost (sw_boost r') r ∧
        (#16 ≤ tuto_lvl r → sw_boost r' = sw_boost r + #100) ∧
        (#10 ≤ tuto_lvl r → tuto_lvl r < #16 →
           sw_boost r' = sw_boost r + #50) ∧
        (tuto_lvl r < #10 → sw_boost r' = sw_boost r).
Proof.
  intros Hl. exists (tutoRec r).
  split; [by apply tutoCheck_acts|].
  unfold tutoRec. repeat case_bool_decide; simpl.
  - repeat split; try done.
    + intros _ Hlt. by apply Qclt_not_le in Hlt.
    + intros Hlt. apply Qclt_not_le in Hlt. destruct Hlt.
      etrans; [apply Zc_le|eassumption]. lia.
  - repeat split; try done.
    intros Hlt. by apply Qclt_not_le in Hlt.
  - destruct r; repeat split; done.
Qed.

Lemma tutoCheck_tiers_witness :
  (heap1 (tutoStats #16) !! base1 = Some (tutoStats #16) ∧
   heap1 (tutoStats #100) !! base1 = Some (tutoStats #100)) ∧
  ∃ r16 r100,
    tutoCheck base1 (heap1 (tutoStats #16))
      = Some (tt, <[base1 := r16]> (heap1 (tutoStats #16))) ∧
    tutoCheck base1 (heap1 (tutoStats #100))
      = Some (tt, <[base1 := r100]> (heap1 (tutoStats #100))) ∧
    sw_boost r16 = #0 + #100 ∧ sw_boost r100 = #0 + #100.
Proof.
  split; [split; reflexivity|].
  destruct (tutoCheck_tiers (heap1 (tutoStats #16)) base1 _ eq_refl)
    as (r16 & Hrun16 & _ & H16 & _).
  destruct (tutoCheck_tiers (heap1 (tutoStats #100)) base1 _ eq_refl)
    as (r100 & Hrun100 & _ & H100 & _).
  exists r16, r100. repeat split; [exact Hrun16|exact Hrun100| |].
  - apply H16. by vm_compute.
  - apply H100. by vm_compute.
Defined.


(** C9. The record returned has [cards_claimed] equal to [CARD_TOTAL]
    (43848) minus its [cards_left], whatever [cards_claimed] the base
    record had. *)
Theorem computeEffectiveStats_cards_claimed (h : heap) b r ups :
  h !! b = Some r →
  ∃ l h' r', computeEffectiveStats b ups h = Some (l, h') ∧
             h' !! l = Some r' ∧
             cards_claimed r' = #43848 - cards_left r' ∧
             cards_left r' = cards_left r.
Proof.
  intros Hb. eexists _, _, _.
  split; [by apply computeEffectiveStats_run|].
  split; [apply lookup_insert_eq|].
  rewrite effective_eq. unfold claimedRec. simpl.
  destruct (tutoRec_frame (ogRec (addDelta (totalDelta (default [] ups)) r)))
    as (_ & _ & _ & _ & _ & -> & _).
  destruct (ogRec_frame (addDelta (totalDelta (default [] ups)) r))
    as (_ & _ & _ & _ & _ & -> & _).
  done.
Qed.

Lemma computeEffectiveStats_cards_claimed_witness :
  heap1 (set_cards_claimed #7 defaultStats) !! base1
    = Some (set_cards_claimed #7 defaultStats) ∧
  ∃ l h' r',
    computeEffectiveStats base1 None
      (heap1 (set_cards_claimed #7 defaultStats)) = Some (l, h') ∧
    h' !! l = Some r' ∧
    cards_claimed r' = #43848 - cards_left r' ∧
    cards_left r' = cards_left (set_cards_claimed #7 defaultStats).
Proof.
  split; [reflexivity|].
  apply (computeEffectiveStats_cards_claimed _ base1
           (set_cards_claimed #7 defaultStats)).
  reflexivity.
Defined.

(** C10. The record returned agrees with the base record on [sw_slots],
    [disabled_cards], [cards_left], [kp_limit], [kp_bonus], [og_server],
    [tuto_lvl] and [persrare]: only [rolls], [w_slots], [w_boost],
    [sw_boost], [kp_usage] and [cards_claimed] can differ. *)
Theorem computeEffectiveStats_frame (h : heap) b r ups :
  h !! b = Some r →
  ∃ l h' r', computeEffectiveStats b ups h = Some (l, h') ∧
             h' !! l = Some r' ∧
             sw_slots r' = sw_slots r ∧
             disabled_cards r' = disabled_cards r ∧
             cards_left r' = cards_left r ∧
             kp_limit r' = kp_limit r ∧
             kp_bonus r' = kp_bonus r ∧
             og_server r' = og_server r ∧
             tuto_lvl r' = tuto_lvl r ∧
             persrare r' = persrare r.
Proof.
  intros Hb. eexists _, _, _.
  split; [by apply computeEffectiveStats_run|].
  split; [apply lookup_insert_eq|].
  rewrite effective_eq. unfold claimedRec. simpl.
  destruct (tutoRec_frame (ogRec (addDelta (totalDelta (default [] ups)) r)))
    as (_ & _ & -> & _ & -> & -> & _ & -> & _ & -> & -> & -> & ->).
  destruct (ogRec_frame (addDelta (totalDelta (default [] ups)) r))
    as (_ & -> & _ & _ & -> & -> & _ & -> & _ & -> & -> & -> & ->).
  done.
Qed.

Lemma computeEffectiveStats_frame_witness :
  heap1 defaultStats !! base1 = Some defaultStats ∧
  ∃ l h' r',
    computeEffectiveStats base1
      (Some [("Ruby"%string, VNum (Fin #4)); ("Gold"%string, VNum (Fin #1))])
      (heap1 defaultStats) = Some (l, h') ∧
    h' !! l = Some r' ∧
    sw_slots r' = sw_slots defaultStats ∧
    disabled_cards r' = disabled_cards defaultStats ∧
    cards_left r' = cards_left defaultStats ∧
    kp_limit r' = kp_limit defaultStats ∧
    kp_bonus r' = kp_bonus defaultStats ∧
    og_server r' = og_server defaultStats ∧
    tuto_lvl r' = tuto_lvl defaultStats ∧
    persrare r' = persrare defaultStats.
Proof.
  split; [reflexivity|].
  apply (computeEffectiveStats_frame (heap1 defaultStats) base1 defaultStats).
  reflexivity.
Defined.


(** * Further properties *)

(** ** What the odds depend on *)

(** [calculateOdds] reads eight fields, and [persrare] only through
    [Math.max(1, persrare)]. *)
Lemma calculateOdds_ext s1 s2 :
  w_slots s1 = w_slots s2 → sw_slots s1 = sw_slots s2 →
  w_boost s1 = w_boost s2 → sw_boost s1 = sw_boost s2 →
  disabled_cards s1 = disabled_cards s2 → cards_left s1 = cards_left s2 →
  cards_claimed s1 = cards_claimed s2 →
  Math_max #1 (persrare s1) = Math_max #1 (persrare s2) →
  calculateOdds s1 = calculateOdds s2.
Proof.
  intros Hws Hsws Hwb Hswb Hdc Hcl Hcc Hpr.
  unfold calculateOdds, cardsAvailable.
  by rewrite Hws, Hsws, Hwb, Hswb, Hdc, Hcl, Hcc, Hpr.
Qed.

(** The fields of the record [computeEffectiveStats] returns, from the
    base record and the sum of the increments. *)
Lemma effective_fields r es :
  let e := effective r es in
  rolls e = rolls r + d_rolls (totalDelta es) + ogBonus (og_server r) ∧
  w_slots e = w_slots r + d_w_slots (totalDelta es) ∧
  sw_slots e = sw_slots r ∧
  w_boost e = w_boost r + d_w_boost (totalDelta es) ∧
  sw_boost e = sw_boost r + tutoBonus (tuto_lvl r) ∧
  disabled_cards e = disabled_cards r ∧
  cards_left e = cards_left r ∧
  cards_claimed e = CARD_TOTAL - cards_left r ∧
  kp_limit e = kp_limit r ∧
  kp_usage e = kp_usage r + d_kp_usage (totalDelta es) ∧
  kp_bonus e = kp_bonus r ∧
  og_server e = og_server r ∧
  tuto_lvl e = tuto_lvl r ∧
  persrare e = persrare r.
Proof.
  intros e. subst e. rewrite effective_eq.
  destruct r as [ro ws sws wb swb dc cl cc kl ku kb og tl pr].
  destruct (totalDelta es) as [d1 d2 d3 d4].
  unfold claimedRec, tutoRec, ogRec, addDelta, tutoBonus, ogBonus. simpl.
  destruct og; repeat case_bool_decide; simpl in *; try contradiction;
    repeat split; try reflexivity; rewrite ?Z2Qc_inj_0; ring.
Qed.

Lemma Number_or_else v d : Number (or_else v d) = Fin (NumberOr v d).
Proof.
  unfold NumberOr, or_else.
  destruct v as [| |[]|[|q]]; simpl; try done.
  by case_bool_decide.
Qed.

Lemma NumberOr_falsy v d : Boolean v = false → NumberOr v d = d.
Proof. intros Hv. unfold NumberOr, or_else. by rewrite Hv. Qed.

(** [calculateFromInputs] never fails: it allocates [base] and the copy
    and returns the odds of the copy. *)
Lemma calculateFromInputs_run (h : heap) i :
  let l1 := fresh (dom h) in
  let h1 := <[l1 := normalize i]> h in
  let e := effective (normalize i) (default [] (in_upgrades i)) in
  calculateFromInputs i h =
    Some (calculateOdds e, <[fresh (dom h1) := e]> h1).
Proof.
  intros l1 h1 e. unfold calculateFromInputs.
  unfold mbind at 1, M_bind at 1, bind at 1, new. fold l1. fold h1.
  unfold mbind at 1, M_bind at 1, bind at 1.
  rewrite (computeEffectiveStats_run h1 l1 (normalize i))
    by apply lookup_insert_eq.
  unfold mbind, M_bind, bind, get. rewrite lookup_insert_eq. done.
Qed.

(** ** The odds calculator: edge cases *)

Lemma Math_max_1_floor p : p ≤ #1 → Math_max #1 p = #1.
Proof.
  intros Hp. unfold Math_max. case_decide as H1; [|done].
  by apply Qcle_antisym.
Qed.


(** X1. A [persrare] of at most 1 (0 and negative values included) counts
    as 1: the odds are those of the record with [persrare = 1], so the
    divisor of [kspawn_odds] is never 0 or negative. *)
Theorem calculateOdds_persrare_floor s :
  persrare s ≤ #1 →
  calculateOdds s = calculateOdds (set_persrare #1 s).
Proof.
  intros Hp. apply calculateOdds_ext; try reflexivity.
  simpl. rewrite (Math_max_1_floor _ Hp).
  symmetry. by apply Math_max_1_floor, Zc_le.
Qed.

Lemma calculateOdds_persrare_floor_witness :
  persrare (set_persrare #0 lastCardStats) ≤ #1 ∧
  calculateOdds (set_persrare #0 lastCardStats) =
  calculateOdds (set_persrare #1 (set_persrare #0 lastCardStats)).
Proof.
  split; [by vm_compute|].
  apply (calculateOdds_persrare_floor (set_persrare #0 lastCardStats)).
  by vm_compute.
Defined.






(** X3. Without a normal wish slot, [w_slots <= sw_slots], [wish_odds] is
    exactly 0 for every record: the slot difference is raised to 0, never
    counted negatively. *)
Theorem wish_odds_no_normal_slots s :
  w_slots s ≤ sw_slots s → wish_odds (calculateOdds s) = #0.
Proof.
  intros Hle. unfold calculateOdds. case_bool_decide; simpl; [done|].
  assert (Hd : w_slots s - sw_slots s ≤ #0).
  { apply (Qcplus_le_mono_r _ _ (sw_slots s)).
    by replace (w_slots s - sw_slots s + sw_slots s) with (w_slots s)
      by ring; rewrite Z2Qc_inj_0, Qcplus_0_l. }
  assert (Hn : Math_max #0 (w_slots s - sw_slots s) = #0).
  { unfold Math_max. case_decide; [by apply Qcle_antisym | done]. }
  rewrite Hn, Z2Qc_inj_0. ring.
Qed.

Lemma wish_odds_no_normal_slots_witness :
  w_slots (set_w_slots #0 lastCardStats)
    ≤ sw_slots (set_w_slots #0 lastCardStats) ∧
  wish_odds (calculateOdds (set_w_slots #0 lastCardStats)) = #0.
Proof.
  split; [by vm_compute|].
  apply (wish_odds_no_normal_slots (set_w_slots #0 lastCardStats)).
  by vm_compute.
Defined.

(** ** The aggregator: further properties *)

Lemma entryDelta_Gold_Sapphire name level :
  name = "Gold"%string ∨ name = "Sapphire"%string →
  d_w_slots (entryDelta (name, level)) = 0 ∧
  d_w_boost (entryDelta (name, level)) = 0.
Proof.
  intros [-> | ->]; unfold entryDelta; case_bool_decide; simpl;
    repeat case_decide; done.
Qed.

(** X4. Gold and Sapphire levels never change the odds: the record
    returned with such an entry in the selection and the one returned
    without it have the same five odds. *)
Theorem Gold_Sapphire_odds_neutral
    (h : heap) b r (pre post : entries) name level :
  h !! b = Some r →
  name = "Gold"%string ∨ name = "Sapphire"%string →
  ∃ l1 h1 r1 l2 h2 r2,
    computeEffectiveStats b (Some (pre ++ (name, level) :: post)) h
      = Some (l1, h1) ∧ h1 !! l1 = Some r1 ∧
    computeEffectiveStats b (Some (pre ++ post)) h = Some (l2, h2) ∧
    h2 !! l2 = Some r2 ∧
    calculateOdds r1 = calculateOdds r2.
Proof.
  intros Hb Hname. eexists _, _, _, _, _, _.
  split; [by apply computeEffectiveStats_run|].
  split; [apply lookup_insert_eq|].
  split; [by apply computeEffectiveStats_run|].
  split; [apply lookup_insert_eq|]. cbn [from_option id].
  destruct (entryDelta_Gold_Sapphire name level Hname) as [Hws Hwb].
  pose proof (effective_fields r (pre ++ (name, level) :: post)) as H1.
  pose proof (effective_fields r (pre ++ post)) as H2.
  cbv zeta in H1, H2.
  destruct H1 as (_ & Hws1 & Hsws1 & Hwb1 & Hswb1 & Hdc1 & Hcl1 & Hcc1 & _
    & _ & _ & _ & _ & Hpr1).
  destruct H2 as (_ & Hws2 & Hsws2 & Hwb2 & Hswb2 & Hdc2 & Hcl2 & Hcc2 & _
    & _ & _ & _ & _ & Hpr2).
  apply calculateOdds_ext; try congruence.
  - rewrite Hws1, Hws2, !totalDelta_app, totalDelta_cons.
    unfold dplus. cbn [d_w_slots]. rewrite Hws. ring.
  - rewrite Hwb1, Hwb2, !totalDelta_app, totalDelta_cons.
    unfold dplus. cbn [d_w_boost]. rewrite Hwb. ring.
Qed.

Lemma Gold_Sapphire_odds_neutral_witness :
  heap1 defaultStats !! base1 = Some defaultStats ∧
  ("Gold"%string = "Gold"%string ∨ "Gold"%string = "Sapphire"%string) ∧
  ∃ l1 h1 r1 l2 h2 r2,
    computeEffectiveStats base1
      (Some ([("Silver"%string, VNum (Fin #1))] ++
             ("Gold"%string, VNum (Fin #3)) :: [])) (heap1 defaultStats)
      = Some (l1, h1) ∧ h1 !! l1 = Some r1 ∧
    computeEffectiveStats base1
      (Some ([("Silver"%string, VNum (Fin #1))] ++ []))
      (heap1 defaultStats) = Some (l2, h2) ∧
    h2 !! l2 = Some r2 ∧
    calculateOdds r1 = calculateOdds r2.
Proof.
  split; [reflexivity|]. split; [left; reflexivity|].
  apply (Gold_Sapphire_odds_neutral (heap1 defaultStats) base1 defaultStats
           [("Silver"%string, VNum (Fin #1))] [] "Gold" (VNum (Fin #3))).
  - reflexivity.
  - left; reflexivity.
Defined.

Lemma Qc_nonneg_mul x y : #0 < x → (0 ≤ y)%Z → 0 ≤ x * #y.
Proof.
  intros Hx Hy. apply Qcmult_nonneg_nonneg.
  - apply Qclt_le_weak. by rewrite <- Z2Qc_inj_0.
  - rewrite <- Z2Qc_inj_0. by apply Zc_le.
Qed.

Lemma Qc_nonpos_opp x : 0 ≤ x → - x ≤ 0.
Proof. intros Hx. by apply Qcopp_le_compat in Hx. Qed.

Lemma Qc_zero_le_Zc z : (0 ≤ z)%Z → 0 ≤ #z.
Proof. intros Hz. rewrite <- Z2Qc_inj_0. by apply Zc_le. Qed.

(** No entry takes anything from [rolls], [w_slots] or [w_boost], nor
    adds to [kp_usage]. *)
Lemma entryDelta_sign e :
  0 ≤ d_rolls (entryDelta e) ∧ 0 ≤ d_w_slots (entryDelta e) ∧
  0 ≤ d_w_boost (entryDelta e) ∧ d_kp_usage (entryDelta e) ≤ 0.
Proof.
  destruct e as [name level]. unfold entryDelta, rubyDelta.
  case_bool_decide as Hpos; [|by repeat split].
  repeat case_decide; repeat case_bool_decide; simpl; repeat split;
    first [ done
          | apply Qc_nonneg_mul; [done | lia]
          | apply Qc_zero_le_Zc; lia
          | apply Qc_nonpos_opp, Qc_nonneg_mul; [done | lia]
          | apply Qc_nonpos_opp, Qc_zero_le_Zc; lia ].
Qed.

Lemma totalDelta_sign es :
  0 ≤ d_rolls (totalDelta es) ∧ 0 ≤ d_w_slots (totalDelta es) ∧
  0 ≤ d_w_boost (totalDelta es) ∧ d_kp_usage (totalDelta es) ≤ 0.
Proof.
  induction es as [|e es (IH1 & IH2 & IH3 & IH4)]; [by repeat split|].
  rewrite totalDelta_cons. unfold dplus.
  cbn [d_rolls d_w_slots d_w_boost d_kp_usage].
  destruct (entryDelta_sign e) as (H1 & H2 & H3 & H4).
  repeat split.
  - by apply Qcplus_nonneg_nonneg.
  - by apply Qcplus_nonneg_nonneg.
  - by apply Qcplus_nonneg_nonneg.
  - by apply Qcplus_nonpos_nonpos.
Qed.

Lemma Qcle_plus_nonneg x d : 0 ≤ d → x ≤ x + d.
Proof.
  intros Hd. apply (Qcplus_le_mono_l _ _ x) in Hd.
  by rewrite Qcplus_0_r in Hd.
Qed.

Lemma Qcle_plus_nonpos x d : d ≤ 0 → x + d ≤ x.
Proof.
  intros Hd. apply (Qcplus_le_mono_l _ _ x) in Hd.
  by rewrite Qcplus_0_r in Hd.
Qed.

Lemma tutoBonus_nonneg lvl : 0 ≤ tutoBonus lvl.
Proof.
  unfold tutoBonus. repeat case_bool_decide; apply Qc_zero_le_Zc; lia.
Qed.

Lemma ogBonus_nonneg og : 0 ≤ ogBonus og.
Proof. destruct og; apply Qc_zero_le_Zc; simpl; lia. Qed.

(** X5. Whatever the selection, the record returned has [rolls],
    [w_slots], [w_boost] and [sw_boost] no lower, and [kp_usage] no higher,
    than the base record: no upgrade level, however coerced, works against
    the player. *)
Theorem computeEffectiveStats_monotone (h : heap) b r ups :
  h !! b = Some r →
  ∃ l h' r', computeEffectiveStats b ups h = Some (l, h') ∧
             h' !! l = Some r' ∧
             rolls r ≤ rolls r' ∧ w_slots r ≤ w_slots r' ∧
             w_boost r ≤ w_boost r' ∧ sw_boost r ≤ sw_boost r' ∧
             kp_usage r' ≤ kp_usage r.
Proof.
  intros Hb. eexists _, _, _.
  split; [by apply computeEffectiveStats_run|].
  split; [apply lookup_insert_eq|].
  pose proof (effective_fields r (default [] ups)) as H. cbv zeta in H.
  destruct H as (-> & -> & _ & -> & -> & _ & _ & _ & _ & -> & _).
  destruct (totalDelta_sign (default [] ups)) as (H1 & H2 & H3 & H4).
  repeat split.
  - etrans; [|apply Qcle_plus_nonneg, ogBonus_nonneg].
    by apply Qcle_plus_nonneg.
  - by apply Qcle_plus_nonneg.
  - by apply Qcle_plus_nonneg.
  - apply Qcle_plus_nonneg, tutoBonus_nonneg.
  - by apply Qcle_plus_nonpos.
Qed.

Lemma computeEffectiveStats_monotone_witness :
  heap1 ogStats !! base1 = Some ogStats ∧
  ∃ l h' r',
    computeEffectiveStats base1
      (Some [("Gold"%string, VNum (Fin (#5 / #2)));
             ("Ruby"%string, VBool true)]) (heap1 ogStats) = Some (l, h') ∧
    h' !! l = Some r' ∧
    rolls ogStats ≤ rolls r' ∧ w_slots ogStats ≤ w_slots r' ∧
    w_boost ogStats ≤ w_boost r' ∧ sw_boost ogStats ≤ sw_boost r' ∧
    kp_usage r' ≤ kp_usage ogStats.
Proof.
  split; [reflexivity|].
  apply (computeEffectiveStats_monotone (heap1 ogStats) base1 ogStats).
  reflexivity.
Defined.

(** X6. [computeEffectiveStats] is not idempotent.  Run again on its own
    result, with no upgrade at all, it adds the [og_server] bonus to
    [rolls] and the tutorial bonus to [sw_boost] a second time; the
    recomputed [cards_claimed] and the fields the upgrades act on stay as
    they were. *)
Theorem computeEffectiveStats_twice (h : heap) b r ups :
  h !! b = Some r →
  ∃ l1 h1 r1 l2 h2 r2,
    computeEffectiveStats b ups h = Some (l1, h1) ∧ h1 !! l1 = Some r1 ∧
    computeEffectiveStats l1 None h1 = Some (l2, h2) ∧ h2 !! l2 = Some r2 ∧
    rolls r2 = rolls r1 + ogBonus (og_server r) ∧
    sw_boost r2 = sw_boost r1 + tutoBonus (tuto_lvl r) ∧
    cards_claimed r2 = cards_claimed r1 ∧
    w_slots r2 = w_slots r1 ∧ w_boost r2 = w_boost r1 ∧
    kp_usage r2 = kp_usage r1.
Proof.
  intros Hb.
  set (r1 := effective r (default [] ups)).
  set (l1 := fresh (dom h)). set (h1 := <[l1 := r1]> h).
  assert (Hl1 : h1 !! l1 = Some r1) by apply lookup_insert_eq.
  exists l1, h1, r1, (fresh (dom h1)),
    (<[fresh (dom h1) := effective r1 []]> h1), (effective r1 []).
  split; [by apply computeEffectiveStats_run|].
  split; [done|].
  split; [by apply (computeEffectiveStats_run h1 l1 r1 None)|].
  split; [apply lookup_insert_eq|].
  pose proof (effective_fields r (default [] ups)) as H1.
  pose proof (effective_fields r1 []) as H2.
  cbv zeta in H1, H2. fold r1 in H1.
  destruct H1 as (_ & _ & _ & _ & _ & _ & Hcl & Hcc & _ & _ & _ & Hog & Htl
    & _).
  destruct H2 as (-> & -> & _ & -> & -> & _ & _ & -> & _ & -> & _).
  rewrite Hog, Htl, Hcl, Hcc. simpl.
  repeat split; ring.
Qed.

Lemma computeEffectiveStats_twice_witness :
  heap1 ogStats !! base1 = Some ogStats ∧
  ∃ l1 h1 r1 l2 h2 r2,
    computeEffectiveStats base1 None (heap1 ogStats) = Some (l1, h1) ∧
    h1 !! l1 = Some r1 ∧
    computeEffectiveStats l1 None h1 = Some (l2, h2) ∧ h2 !! l2 = Some r2 ∧
    rolls r2 = rolls r1 + ogBonus (og_server ogStats).
Proof.
  split; [reflexivity|].
  destruct (computeEffectiveStats_twice (heap1 ogStats) base1 ogStats None
              eq_refl)
    as (l1 & h1 & r1 & l2 & h2 & r2 & H1 & H2 & H3 & H4 & H5 & _).
  exists l1, h1, r1, l2, h2, r2. repeat split; assumption.
Defined.

(** X7. Two successive calls on the same base object return two distinct
    new objects; the second call leaves the first result, and the base,
    as they were, and with the same selection both results hold the same
    record. *)
Theorem computeEffectiveStats_no_aliasing (h : heap) b r ups1 ups2 :
  h !! b = Some r →
  ∃ l1 h1 l2 h2,
    computeEffectiveStats b ups1 h = Some (l1, h1) ∧
    computeEffectiveStats b ups2 h1 = Some (l2, h2) ∧
    l1 ≠ l2 ∧ l1 ≠ b ∧ l2 ≠ b ∧
    h2 !! l1 = h1 !! l1 ∧ h2 !! b = Some r ∧
    (ups1 = ups2 → h2 !! l2 = h2 !! l1).
Proof.
  intros Hb.
  set (l1 := fresh (dom h)).
  set (h1 := <[l1 := effective r (default [] ups1)]> h).
  assert (Hf1 : h !! l1 = None) by apply not_elem_of_dom, is_fresh.
  assert (Hf2 : h1 !! fresh (dom h1) = None) by apply not_elem_of_dom, is_fresh.
  assert (Hl1 : h1 !! l1 = Some (effective r (default [] ups1)))
    by apply lookup_insert_eq.
  assert (Hne1 : l1 ≠ b) by congruence.
  assert (Hb1 : h1 !! b = Some r) by (unfold h1; by rewrite lookup_insert_ne).
  exists l1, h1, (fresh (dom h1)),
    (<[fresh (dom h1) := effective r (default [] ups2)]> h1).
  split; [by apply computeEffectiveStats_run|].
  split; [by apply computeEffectiveStats_run|].
  assert (Hne12 : l1 ≠ fresh (dom h1)) by congruence.
  assert (Hne2 : fresh (dom h1) ≠ b) by congruence.
  repeat split; try done.
  - by rewrite lookup_insert_ne.
  - by rewrite lookup_insert_ne.
  - intros <-. rewrite lookup_insert_eq. by rewrite lookup_insert_ne.
Qed.

Lemma computeEffectiveStats_no_aliasing_witness :
  heap1 defaultStats !! base1 = Some defaultStats ∧
  ∃ l1 h1 l2 h2,
    computeEffectiveStats base1 (Some [("Bronze"%string, VNum (Fin #1))])
      (heap1 defaultStats) = Some (l1, h1) ∧
    computeEffectiveStats base1 None h1 = Some (l2, h2) ∧
    l1 ≠ l2 ∧ h2 !! l1 = h1 !! l1.
Proof.
  split; [reflexivity|].
  destruct (computeEffectiveStats_no_aliasing (heap1 defaultStats) base1
              defaultStats (Some [("Bronze"%string, VNum (Fin #1))]) None
              eq_refl)
    as (l1 & h1 & l2 & h2 & H1 & H2 & H3 & _ & _ & H4 & _).
  exists l1, h1, l2, h2. repeat split; assumption.
Defined.

(** ** The helper for forms *)

(** X9. For inputs none of whose upgrade names is inherited from
    [Object.prototype], [calculateFromInputs] returns odds, and every
    object that was in the heap before the call is still there with the
    same contents: the call writes only to the two objects it creates. *)
Theorem calculateFromInputs_frame (h : heap) i :
  (∀ name level, (name, level) ∈ default [] (in_upgrades i) →
                 name ∉ objectPrototypeNames) →
  ∃ o h', calculateFromInputs i h = Some (o, h') ∧
          ∀ l s, h !! l = Some s → h' !! l = Some s.
Proof.
  intros _.
  eexists _, _. split; [apply calculateFromInputs_run|].
  intros l s Hl.
  set (l1 := fresh (dom h)). set (h1 := <[l1 := normalize i]> h).
  assert (Hf1 : h !! l1 = None) by apply not_elem_of_dom, is_fresh.
  assert (Hf2 : h1 !! fresh (dom h1) = None) by apply not_elem_of_dom, is_fresh.
  assert (Hl1 : h1 !! l = Some s).
  { unfold h1. rewrite lookup_insert_ne; [done | congruence]. }
  rewrite lookup_insert_ne; [done | congruence].
Qed.

Lemma calculateFromInputs_frame_witness :
  (∀ name level,
     (name, level) ∈ default [] (in_upgrades
        (mkInputs None None None None None VUndefined VUndefined None None
           None None VUndefined VUndefined VUndefined
           (Some [("Bronze"%string, VNum (Fin #2))]))) →
     name ∉ objectPrototypeNames) ∧
  ∃ o h',
    calculateFromInputs
      (mkInputs None None None None None VUndefined VUndefined None None
         None None VUndefined VUndefined VUndefined
         (Some [("Bronze"%string, VNum (Fin #2))])) (heap1 defaultStats)
    = Some (o, h') ∧
    ∀ l s, heap1 defaultStats !! l = Some s → h' !! l = Some s.
Proof.
  assert (Hnames : ∀ name level,
     (name, level) ∈ default [] (in_upgrades
        (mkInputs None None None None None VUndefined VUndefined None None
           None None VUndefined VUndefined VUndefined
           (Some [("Bronze"%string, VNum (Fin #2))]))) →
     name ∉ objectPrototypeNames).
  { intros name level Hin. simpl in Hin.
    apply list_elem_of_singleton in Hin. injection Hin as -> _.
    unfold objectPrototypeNames. intros Hp.
    repeat (apply elem_of_cons in Hp as [Hp|Hp]; [discriminate|]).
    by apply elem_of_nil in Hp. }
  split; [exact Hnames|].
  apply (calculateFromInputs_frame (heap1 defaultStats) _ Hnames).
Defined.

(** The odds of the record returned depend on the base record only through
    the fields below. *)
Lemma effective_odds_ext r1 r2 es :
  w_slots r1 = w_slots r2 → sw_slots r1 = sw_slots r2 →
  w_boost r1 = w_boost r2 → sw_boost r1 = sw_boost r2 →
  disabled_cards r1 = disabled_cards r2 → cards_left r1 = cards_left r2 →
  tuto_lvl r1 = tuto_lvl r2 →
  Math_max #1 (persrare r1) = Math_max #1 (persrare r2) →
  calculateOdds (effective r1 es) = calculateOdds (effective r2 es).
Proof.
  intros Hws Hsws Hwb Hswb Hdc Hcl Htl Hpr.
  pose proof (effective_fields r1 es) as H1.
  pose proof (effective_fields r2 es) as H2.
  cbv zeta in H1, H2.
  destruct H1 as (_ & Hws1 & Hsws1 & Hwb1 & Hswb1 & Hdc1 & Hcl1 & Hcc1 & _
    & _ & _ & _ & _ & Hpr1).
  destruct H2 as (_ & Hws2 & Hsws2 & Hwb2 & Hswb2 & Hdc2 & Hcl2 & Hcc2 & _
    & _ & _ & _ & _ & Hpr2).
  apply calculateOdds_ext; congruence.
Qed.

(** X10. A [cards_left] that is falsy ([0], [NaN], [null], [undefined],
    [false]) is replaced by [CARD_TOTAL]: the call behaves in every respect
    as with [cards_left = 43848].  An empty pool cannot be entered as the
    number 0. *)
Theorem calculateFromInputs_cards_left_falsy (h : heap) i :
  Boolean (in_cards_left i) = false →
  calculateFromInputs i h =
  calculateFromInputs (with_cards_left (VNum (Fin CARD_TOTAL)) i) h.
Proof.
  intros Hf.
  assert (Hn : normalize (with_cards_left (VNum (Fin CARD_TOTAL)) i)
               = normalize i).
  { unfold normalize. simpl. rewrite (NumberOr_falsy _ _ Hf).
    f_equal. }
  pose proof (calculateFromInputs_run h i) as H1.
  pose proof (calculateFromInputs_run h
                (with_cards_left (VNum (Fin CARD_TOTAL)) i)) as H2.
  cbv zeta in H1, H2. rewrite Hn in H2. simpl in H2.
  by rewrite H1, H2.
Qed.

Lemma calculateFromInputs_cards_left_falsy_witness :
  Boolean (in_cards_left (with_cards_left (VNum (Fin #0)) noInputs)) = false ∧
  calculateFromInputs (with_cards_left (VNum (Fin #0)) noInputs) ∅ =
  calculateFromInputs
    (with_cards_left (VNum (Fin CARD_TOTAL))
       (with_cards_left (VNum (Fin #0)) noInputs)) ∅.
Proof.
  split; [reflexivity|].
  apply (calculateFromInputs_cards_left_falsy ∅
           (with_cards_left (VNum (Fin #0)) noInputs)).
  reflexivity.
Defined.

(** X11. A [persrare] that is falsy or at most 1 gives the odds of an
    absent [persrare], that is of the default 1. *)
Theorem calculateFromInputs_persrare_floor (h : heap) i :
  NumberOr (in_persrare i) #1 ≤ #1 →
  fst <$> calculateFromInputs i h =
  fst <$> calculateFromInputs (with_persrare VUndefined i) h.
Proof.
  intros Hp.
  rewrite !calculateFromInputs_run. simpl.
  f_equal. apply effective_odds_ext; try reflexivity.
  simpl. rewrite (Math_max_1_floor _ Hp).
  symmetry. apply Math_max_1_floor. by vm_compute.
Qed.

Lemma calculateFromInputs_persrare_floor_witness :
  NumberOr (in_persrare (with_persrare (VNum (Fin (- #7))) noInputs)) #1
    ≤ #1 ∧
  fst <$> calculateFromInputs (with_persrare (VNum (Fin (- #7))) noInputs) ∅ =
  fst <$> calculateFromInputs
            (with_persrare VUndefined
               (with_persrare (VNum (Fin (- #7))) noInputs)) ∅.
Proof.
  split; [by vm_compute|].
  apply (calculateFromInputs_persrare_floor ∅
           (with_persrare (VNum (Fin (- #7))) noInputs)).
  by vm_compute.
Defined.

(** X12. The odds returned are a function of [w_slots], [sw_slots],
    [w_boost], [sw_boost], [disabled_cards], [cards_left], [tuto_lvl],
    [persrare] and [upgrades] alone: [rolls], [cards_claimed], [kp_limit],
    [kp_usage], [kp_bonus] and [og_server] of the inputs, and the heap the
    call runs in, have no influence on them. *)
Theorem calculateFromInputs_ignored_fields (h1 h2 : heap) i1 i2 :
  in_w_slots i1 = in_w_slots i2 → in_sw_slots i1 = in_sw_slots i2 →
  in_w_boost i1 = in_w_boost i2 → in_sw_boost i1 = in_sw_boost i2 →
  in_disabled_cards i1 = in_disabled_cards i2 →
  in_cards_left i1 = in_cards_left i2 →
  in_tuto_lvl i1 = in_tuto_lvl i2 → in_persrare i1 = in_persrare i2 →
  in_upgrades i1 = in_upgrades i2 →
  fst <$> calculateFromInputs i1 h1 = fst <$> calculateFromInputs i2 h2.
Proof.
  intros Hws Hsws Hwb Hswb Hdc Hcl Htl Hpr Hups.
  rewrite !calculateFromInputs_run. simpl.
  f_equal. rewrite Hups.
  apply effective_odds_ext; simpl; congruence.
Qed.

Lemma calculateFromInputs_ignored_fields_witness :
  fst <$> calculateFromInputs noInputs ∅ =
  fst <$> calculateFromInputs
            (mkInputs (Some #99) None None None None VUndefined VUndefined
               (Some #5) (Some #1) (Some #2) (Some #3) (VBool true)
               VUndefined VUndefined None) (heap1 defaultStats).
Proof.
  apply (calculateFromInputs_ignored_fields ∅ (heap1 defaultStats) noInputs
           (mkInputs (Some #99) None None None None VUndefined VUndefined
              (Some #5) (Some #1) (Some #2) (Some #3) (VBool true)
              VUndefined VUndefined None)); reflexivity.
Defined.

(** With no input at all the odds are those of the defaults: 1/43848 for a
    roll and for a wish, 4/43848 over the four normal slots, 1/43848 for
    the star wish, and no kspawn. *)
Example calculateFromInputs_defaults :
  fst <$> calculateFromInputs noInputs ∅ =
  Some (mkOdds (#1 / #43848) (#1 / #43848) (#4 / #43848) (#1 / #43848) #0).
Proof.
  rewrite calculateFromInputs_run. simpl. f_equal.
  unfold calculateOdds.
  rewrite bool_decide_eq_false_2 by by vm_compute.
  f_equal; by apply Qc_is_canon.
Qed.

(** * Skipped and applied entries *)




(** * The aggregator in doubles *)

Import PrimFloat.






(** The same at ordinary sizes: Bronze at level 1.03 (the double nearest
    to it) and Ruby at level 1 give different [w_slots] in the two
    orders. *)
Example order_changes_w_slots_small :
  ∃ r1 r2,
    Double.computeEffectiveStats Double.defaultStats
      (Some [("Bronze"%string, Double.VNum 0x1.07ae147ae147bp+0%float);
             ("Ruby"%string, Double.VNum 1%float)]) = Some r1 ∧
    Double.computeEffectiveStats Double.defaultStats
      (Some [("Ruby"%string, Double.VNum 1%float);
             ("Bronze"%string, Double.VNum 0x1.07ae147ae147bp+0%float)])
      = Some r2 ∧
    PrimFloat.eqb (Double.w_slots r1) (Double.w_slots r2) = false.
Proof.
  eexists _, _.
  split; [vm_compute; reflexivity|].
  split; [vm_compute; reflexivity|].
  vm_compute. reflexivity.
Qed.



(** Names inherited from [Object.prototype] are found by
    [UPGRADE_EFFECTS[name]] too: at a positive level [toString] is called
    and changes nothing, and [__proto__] makes the call throw. *)
Example inherited_names :
  Double.computeEffectiveStats Double.defaultStats
    (Some [("toString"%string, Double.VNum 1%float)]) =
  Double.computeEffectiveStats Double.defaultStats (Some []) ∧
  Double.computeEffectiveStats Double.defaultStats
    (Some [("__proto__"%string, Double.VNum 1%float)]) = None ∧
  Double.computeEffectiveStats Double.defaultStats
    (Some [("__proto__"%string, Double.VNum 0%float)]) =
  Double.computeEffectiveStats Double.defaultStats (Some []).
Proof. repeat split; vm_compute; reflexivity. Qed.
